(** * compass.db.database: the session manager, embedded and verified

    The module under study ([src/compass/db/database.py]) keeps four
    module-level objects ([ENGINE], [SESSION], [SCOPED_SESSION],
    [SESSION_HOLDER]) and exposes [init], the context manager [session],
    [current_session] and four schema helpers.  Every function is a short
    sequence of calls on those objects, so the embedding is a state-and-
    exception monad over a record holding them, plus the trace of calls the
    module issues to its collaborators (the session objects, the logger,
    the schema metadata). *)

From stdpp Require Import base option list gmap strings.

Open Scope string_scope.
Open Scope list_scope.

(** ** Python values the module handles *)

(** Threads are the execution contexts of [threading.local]. *)
Abbreviation thread := nat (only parsing).

(** A session object is identified by its position in the store of
    session objects ever constructed (object identity). *)
Abbreviation session_id := nat (only parsing).

(** [create_engine(url, ...)] builds a fresh engine object on every call;
    [eng_id] is its identity, [eng_url] the database it points to. *)
Record engine := Engine { eng_id : nat; eng_url : string }.

#[global] Instance engine_eq_dec : EqDecision engine.
Proof. solve_decision. Defined.

(** A [Session] keeps the [bind] it was constructed with. *)
Record session_obj := Session { sess_bind : engine }.

#[global] Instance session_obj_eq_dec : EqDecision session_obj.
Proof. solve_decision. Defined.

(** Exceptions.  [BaseOnly] stands for the classes that derive from
    [BaseException] but not from [Exception] ([KeyboardInterrupt],
    [SystemExit], [GeneratorExit]); every other constructor is an instance
    of [Exception].  [oid] is the identity of a user exception object. *)
Inductive exn :=
| AttributeError (attr : string)
| OperationalError (msg : string)
| ArgumentError (msg : string)
| UserException (cls : string) (oid : nat)
| BaseOnly (cls : string).

#[global] Instance exn_eq_dec : EqDecision exn.
Proof. solve_decision. Defined.

Definition isinstance_Exception (e : exn) : bool :=
  match e with
  | BaseOnly _ => false
  | _ => true
  end.

(** Levels of the [logging] module used by the source. *)
Inductive level := WARNING | ERROR.

#[global] Instance level_eq_dec : EqDecision level.
Proof. solve_decision. Defined.

(** The calls the module issues, in program order. *)
Inductive event :=
| EvNewSession (s : session_id) (bind : engine)
| EvCommit (s : session_id)
| EvRollback (s : session_id)
| EvClose (s : session_id)
| EvRemove (t : thread)
| EvLog (lvl : level) (msg : string)
| EvLogException (e : exn)
| EvCreateAll (bind : engine)
| EvDropAll (bind : engine)
| EvTableCreate (table : string) (bind : engine) (checkfirst : bool)
| EvTableDrop (table : string) (bind : engine) (checkfirst : bool).


(** ** Module state *)

Record state := State {
  (** [ENGINE], the module global. *)
  ENGINE : engine;
  (** [SESSION.kw['bind']]: what [SESSION.configure(bind=...)] last stored. *)
  SESSION_bind : engine;
  (** The thread-local registry of the [scoped_session] that the global
      [SCOPED_SESSION] currently names. *)
  SCOPED_SESSION : gmap nat nat;
  (** [SESSION_HOLDER]: per thread, the attribute [session] when present. *)
  SESSION_HOLDER : gmap nat nat;
  (** Every session object constructed so far. *)
  heap : list session_obj;
  (** Identity handed to the next [create_engine] call. *)
  next_engine : nat;
  (** Tables present in each database, as (url, table name). *)
  tables : gset (string * string);
  (** Calls issued so far, oldest first. *)
  trace : list event;
  (** Sessions on which [close()] has run, oldest first: the calls the
      module makes itself and the one [SCOPED_SESSION.remove()] makes on
      the session it discards. *)
  closed : list nat
}.

Definition set_ENGINE (e : engine) (st : state) : state :=
  State e (SESSION_bind st) (SCOPED_SESSION st) (SESSION_HOLDER st)
        (heap st) (next_engine st) (tables st) (trace st) (closed st).
Definition set_SESSION_bind (e : engine) (st : state) : state :=
  State (ENGINE st) e (SCOPED_SESSION st) (SESSION_HOLDER st)
        (heap st) (next_engine st) (tables st) (trace st) (closed st).
Definition set_SCOPED_SESSION (r : gmap nat nat) (st : state) : state :=
  State (ENGINE st) (SESSION_bind st) r (SESSION_HOLDER st)
        (heap st) (next_engine st) (tables st) (trace st) (closed st).
Definition set_SESSION_HOLDER (h : gmap nat nat) (st : state) : state :=
  State (ENGINE st) (SESSION_bind st) (SCOPED_SESSION st) h
        (heap st) (next_engine st) (tables st) (trace st) (closed st).
Definition set_heap (h : list session_obj) (st : state) : state :=
  State (ENGINE st) (SESSION_bind st) (SCOPED_SESSION st) (SESSION_HOLDER st)
        h (next_engine st) (tables st) (trace st) (closed st).
Definition set_next_engine (n : nat) (st : state) : state :=
  State (ENGINE st) (SESSION_bind st) (SCOPED_SESSION st) (SESSION_HOLDER st)
        (heap st) n (tables st) (trace st) (closed st).
Definition set_tables (d : gset (string * string)) (st : state) : state :=
  State (ENGINE st) (SESSION_bind st) (SCOPED_SESSION st) (SESSION_HOLDER st)
        (heap st) (next_engine st) d (trace st) (closed st).
Definition emit (ev : event) (st : state) : state :=
  State (ENGINE st) (SESSION_bind st) (SCOPED_SESSION st) (SESSION_HOLDER st)
        (heap st) (next_engine st) (tables st) (trace st ++ [ev]) (closed st).

Definition record_close (s : session_id) (st : state) : state :=
  State (ENGINE st) (SESSION_bind st) (SCOPED_SESSION st) (SESSION_HOLDER st)
        (heap st) (next_engine st) (tables st) (trace st) (closed st ++ [s]).

(** ** What the module takes from outside

    [setting.SQLALCHEMY_DATABASE_URI] and [model.BASE.metadata] are read from
    collaborators.  [create_engine_raises] says which urls [create_engine]
    refuses (one it cannot parse, one whose dialect it does not know) and
    with what.  [create_all_checkfirst] is what the metadata's [create_all]
    and [drop_all] do about tables that exist, respectively are missing,
    when called as the module calls them, without a [checkfirst] argument:
    the default of the library, which the module does not choose.
    [commit_raises] says whether (and with what) the database rejects the
    commit of a given session in a given state.  [rollback], [close] and
    [remove] are taken to return normally. *)
Class Environment := {
  SQLALCHEMY_DATABASE_URI : string;
  BASE_metadata : list string;
  create_engine_raises : string → option exn;
  create_all_checkfirst : bool;
  commit_raises : state → nat → option exn
}.

(** ** The state-and-exception monad *)

Inductive result (A : Type) :=
| Return (a : A)
| Raise (e : exn).
Arguments Return {A} a.
Arguments Raise {A} e.

Definition M (A : Type) : Type := state → result A * state.

#[global] Instance M_ret : MRet M := λ A a st, (Return a, st).
#[global] Instance M_bind : MBind M := λ A B f m st,
  match m st with
  | (Return a, st') => f a st'
  | (Raise e, st') => (Raise e, st')
  end.

Definition raise {A} (e : exn) : M A := λ st, (Raise e, st).
Definition get_state : M state := λ st, (Return st, st).
Definition update (f : state → state) : M unit := λ st, (Return (), f st).

(** [try: m  except <classes matched by h> as error: h error]. *)
Definition try_except {A} (m : M A) (h : exn → option (M A)) : M A := λ st,
  match m st with
  | (Return a, st') => (Return a, st')
  | (Raise e, st') =>
      match h e with
      | Some k => k st'
      | None => (Raise e, st')
      end
  end.

(** [try: m  finally: fin].  An exception leaving [fin] replaces whatever
    [m] produced; otherwise the outcome of [m] stands. *)
Definition try_finally {A} (m : M A) (fin : M unit) : M A := λ st,
  match m st with
  | (r, st') =>
      match fin st' with
      | (Return _, st'') => (r, st'')
      | (Raise e, st'') => (Raise e, st'')
      end
  end.

(** ** Collaborator objects, as the module calls them *)

Section Database.
Context `{Env : Environment}.

Definition logging_error (msg : string) : M unit := update (emit (EvLog ERROR msg)).
Definition logging_exception (e : exn) : M unit := update (emit (EvLogException e)).

(** [hasattr(SESSION_HOLDER, 'session')] in thread [t]. *)
Definition hasattr_session (t : thread) : M bool := λ st,
  (Return (bool_decide (is_Some (SESSION_HOLDER st !! t))), st).

(** [SESSION_HOLDER.session] in thread [t]. *)
Definition getattr_session (t : thread) : M session_id := λ st,
  match SESSION_HOLDER st !! t with
  | Some s => (Return s, st)
  | None => (Raise (AttributeError "session"), st)
  end.

(** [SESSION_HOLDER.session = s] in thread [t]. *)
Definition setattr_session (t : thread) (s : session_id) : M unit :=
  update (λ st, set_SESSION_HOLDER (<[t:=s]> (SESSION_HOLDER st)) st).

(** [del SESSION_HOLDER.session] in thread [t]. *)
Definition delattr_session (t : thread) : M unit := λ st,
  match SESSION_HOLDER st !! t with
  | Some _ => (Return (), set_SESSION_HOLDER (delete t (SESSION_HOLDER st)) st)
  | None => (Raise (AttributeError "session"), st)
  end.

(** [create_engine(url, convert_unicode=True)]: raises on a url it
    refuses, builds a new engine otherwise. *)
Definition create_engine (url : string) : M engine := λ st,
  match create_engine_raises url with
  | Some e => (Raise e, st)
  | None =>
      (Return (Engine (next_engine st) url),
       set_next_engine (S (next_engine st)) st)
  end.

(** [SESSION()]: the sessionmaker constructs a session with its current
    [bind]. *)
Definition sessionmaker_call : M session_id := λ st,
  let s := length (heap st) in
  (Return s,
   emit (EvNewSession s (SESSION_bind st))
        (set_heap (heap st ++ [Session (SESSION_bind st)]) st)).

(** [SESSION.configure(bind=e)]. *)
Definition sessionmaker_configure (e : engine) : M unit := update (set_SESSION_bind e).

(** [SCOPED_SESSION()] in thread [t]: the registry's session for the thread,
    constructed by the factory when the thread has none. *)
Definition scoped_session_call (t : thread) : M session_id :=
  st ← get_state;
  match SCOPED_SESSION st !! t with
  | Some s => mret s
  | None =>
      s ← sessionmaker_call;
      update (λ st, set_SCOPED_SESSION (<[t:=s]> (SCOPED_SESSION st)) st);;
      mret s
  end.

(** [SCOPED_SESSION.remove()] in thread [t]: when the registry holds a
    session for the thread it closes that session, then it forgets it.
    The trace records the call of [remove]; the close it performs is
    recorded in [closed]. *)
Definition scoped_session_remove (t : thread) : M unit :=
  update (emit (EvRemove t));;
  st ← get_state;
  match SCOPED_SESSION st !! t with
  | Some s => update (record_close s)
  | None => mret ()
  end;;
  update (λ st, set_SCOPED_SESSION (delete t (SCOPED_SESSION st)) st).

(** [scoped_session(SESSION)]: a new scoped session starts with an empty
    registry. *)
Definition scoped_session_new : gmap nat nat := ∅.

Definition Session_commit (s : session_id) : M unit :=
  st ← get_state;
  update (emit (EvCommit s));;
  match commit_raises st s with
  | Some e => raise e
  | None => mret ()
  end.
Definition Session_rollback (s : session_id) : M unit := update (emit (EvRollback s)).
Definition Session_close (s : session_id) : M unit :=
  update (emit (EvClose s));;
  update (record_close s).

(** Modelled from the spec: the schema collaborator [compass.db.model] and
    the table objects it defines are not part of the sources at hand.  The
    spec gives their interface, [create(engine, check_first)] and
    [drop(engine, check_first)] on a table and [create_all(engine)] and
    [drop_all(engine)] on the metadata, with check-first meaning: no error
    if the table already exists, respectively is already absent.  Without
    check-first the statement is issued blindly and the database rejects a
    duplicate [CREATE] or a [DROP] of a missing table. *)
Definition ddl_create (url table : string) (checkfirst : bool) : M unit :=
  st ← get_state;
  if decide ((url, table) ∈ tables st) then
    if checkfirst then mret ()
    else raise (OperationalError "table already exists")
  else update (set_tables ({[ (url, table) ]} ∪ tables st)).

Definition ddl_drop (url table : string) (checkfirst : bool) : M unit :=
  st ← get_state;
  if decide ((url, table) ∈ tables st) then
    update (set_tables (tables st ∖ {[ (url, table) ]}))
  else
    if checkfirst then mret ()
    else raise (OperationalError "no such table").

Fixpoint for_each {A} (f : A → M unit) (l : list A) : M unit :=
  match l with
  | [] => mret ()
  | x :: l' => f x;; for_each f l'
  end.

(** [table.__table__.create(bind=, checkfirst=)] and [.drop]. *)
Definition Table_create (table : string) (bind : engine) (checkfirst : bool) : M unit :=
  update (emit (EvTableCreate table bind checkfirst));;
  ddl_create (eng_url bind) table checkfirst.
Definition Table_drop (table : string) (bind : engine) (checkfirst : bool) : M unit :=
  update (emit (EvTableDrop table bind checkfirst));;
  ddl_drop (eng_url bind) table checkfirst.

(** Modelled from the spec: [model.BASE.metadata.create_all(bind=)] and
    [.drop_all] of the absent collaborator create, respectively drop, all
    tables known to the metadata.  The module passes no [checkfirst] and
    the spec states none for them, so the choice is the environment's
    [create_all_checkfirst]; the tables are taken in turn and the first
    statement the database rejects ends the call. *)
Definition MetaData_create_all (bind : engine) : M unit :=
  update (emit (EvCreateAll bind));;
  for_each (λ table, ddl_create (eng_url bind) table create_all_checkfirst)
           BASE_metadata.
Definition MetaData_drop_all (bind : engine) : M unit :=
  update (emit (EvDropAll bind));;
  for_each (λ table, ddl_drop (eng_url bind) table create_all_checkfirst)
           (reverse BASE_metadata).

(** ** The module *)

(** Module load, lines 13-17, of a module that loaded: [create_engine]
    accepted [setting.SQLALCHEMY_DATABASE_URI]. *)
Definition initial_state : state :=
  let e := Engine 0 SQLALCHEMY_DATABASE_URI in
  State e e scoped_session_new ∅ [] 1 ∅ [] [].

(** [init(database_url)], lines 20-32.  When [create_engine] raises,
    line 30 assigns nothing and the call ends there. *)
Definition init (database_url : string) : M unit :=
  e ← create_engine database_url;
  update (set_ENGINE e);;
  st ← get_state;
  sessionmaker_configure (ENGINE st);;
  update (set_SCOPED_SESSION scoped_session_new).

(** Lines 44-48 of [session]: which session the scope works on. *)
Definition session_acquire (t : thread) : M session_id :=
  held ← hasattr_session t;
  if held : bool then
    logging_error "we are already in session";;
    getattr_session t
  else
    scoped_session_call t.

(** Lines 53-57: the [except Exception as error] clause. *)
Definition session_except {A} (new_session : session_id) (error : exn) : option (M A) :=
  if isinstance_Exception error then
    Some (Session_rollback new_session;;
          logging_error "failed to commit session";;
          logging_exception error;;
          raise error)
  else None.

(** Lines 58-61: the [finally] clause. *)
Definition session_finally (t : thread) (new_session : session_id) : M unit :=
  Session_close new_session;;
  scoped_session_remove t;;
  delattr_session t.

(** [session()], lines 36-61, run by thread [t] as the manager of a [with]
    statement whose block is [body]: the block runs where the generator
    yields, an exception leaving it is thrown into the generator at the
    yield, and its value is the value of the statement. *)
Definition session {A} (t : thread) (body : session_id → M A) : M A :=
  new_session ← session_acquire t;
  try_finally
    (try_except
       (setattr_session t new_session;;
        a ← body new_session;
        Session_commit new_session;;
        mret a)
       (session_except new_session))
    (session_finally t new_session).

(** The two halves of the generator: up to the [yield] ... *)
Definition session_enter (t : thread) : M session_id :=
  new_session ← session_acquire t;
  setattr_session t new_session;;
  mret new_session.

(** ... and from the [yield] on, resumed with the outcome [r] of the block
    and with the generator's local [new_session]. *)
Definition session_exit {A} (t : thread) (new_session : session_id) (r : result A) : M A :=
  try_finally
    (try_except
       (a ← (λ st, (r, st)) : M A;
        Session_commit new_session;;
        mret a)
       (session_except new_session))
    (session_finally t new_session).

(** [current_session()], lines 64-78. *)
Definition current_session (t : thread) : M session_id :=
  try_except
    (getattr_session t)
    (λ error,
       if isinstance_Exception error then
         Some (logging_error "It is not in the session scope";;
               logging_exception error;;
               raise error)
       else None).

(** [create_db()], [drop_db()], [create_table(table)], [drop_table(table)],
    lines 81-112. *)
Definition create_db : M unit :=
  st ← get_state; MetaData_create_all (ENGINE st).
Definition drop_db : M unit :=
  st ← get_state; MetaData_drop_all (ENGINE st).
Definition create_table (table : string) : M unit :=
  st ← get_state; Table_create table (ENGINE st) true.
Definition drop_table (table : string) : M unit :=
  st ← get_state; Table_drop table (ENGINE st) true.

End Database.

(** ** Interleaved use of the module

    Threads call the module in any order.  A [with] statement shows up as a
    [SessionEnter] (the generator runs to its [yield]) and, later, a
    [SessionExit] carrying the generator's local [new_session] and the
    outcome of the block.  [SessionExit] is allowed with any session, which
    covers every block, well nested or not. *)
Inductive op :=
| Init (database_url : string)
| SessionEnter
| SessionExit (new_session : session_id) (r : result ())
| CurrentSession
| CreateDb
| DropDb
| CreateTable (table : string)
| DropTable (table : string).

Definition is_init (o : op) : bool :=
  match o with
  | Init _ => true
  | _ => false
  end.

(** Operations that only read the module's objects. *)
Definition passive (o : op) : bool :=
  match o with
  | Init _ | SessionEnter | SessionExit _ _ => false
  | _ => true
  end.

Section Interleaving.
Context `{Env : Environment}.

Definition exec (t : thread) (o : op) (st : state) : state :=
  match o with
  | Init database_url => (init database_url st).2
  | SessionEnter => (session_enter t st).2
  | SessionExit new_session r => (session_exit t new_session r st).2
  | CurrentSession => (current_session t st).2
  | CreateDb => (create_db st).2
  | DropDb => (drop_db st).2
  | CreateTable table => (create_table table st).2
  | DropTable table => (drop_table table st).2
  end.

Definition run (l : list (nat * op)) (st : state) : state :=
  foldl (λ st p, exec p.1 p.2 st) st l.

Inductive reachable : state → Prop :=
| reachable_initial : reachable initial_state
| reachable_step st t o : reachable st → reachable (exec t o st).

(** Sessions a context is bound to, through its slot in [SESSION_HOLDER] or
    through the registry of [SCOPED_SESSION]. *)
Definition bound_sessions (st : state) (t : thread) : list session_id :=
  option_list (SESSION_HOLDER st !! t) ++ option_list (SCOPED_SESSION st !! t).

(** Events issued between two states. *)
Definition issued (st st' : state) : list event :=
  drop (length (trace st)) (trace st').

(** The registry never holds, for a context, a session other than the one
    in the context's slot. *)
Definition registry_in_slot (st : state) : Prop :=
  ∀ t s, SCOPED_SESSION st !! t = Some s → SESSION_HOLDER st !! t = Some s.

(** The factory is bound to the current engine, and so is every session
    the current registry holds. *)
Definition factory_current (st : state) : Prop :=
  SESSION_bind st = ENGINE st ∧
  ∀ t s, SCOPED_SESSION st !! t = Some s → heap st !! s = Some (Session (ENGINE st)).

(** Engine identities are handed out in increasing order. *)
Definition engine_fresh (st : state) : Prop :=
  eng_id (ENGINE st) < next_engine st.

(** What the [except] clause of [session] issues for [error], and what the
    guarded part of the generator (commit, or the exception thrown in at
    the [yield], then the [except] clause) issues and produces. *)
Definition except_events (new_session : session_id) (error : exn) : list event :=
  if isinstance_Exception error then
    [EvRollback new_session; EvLog ERROR "failed to commit session"; EvLogException error]
  else [].

Definition guarded_events {A} (new_session : session_id) (r : result A) (st : state) : list event :=
  match r with
  | Return _ =>
      EvCommit new_session ::
      match commit_raises st new_session with
      | Some e => except_events new_session e
      | None => []
      end
  | Raise e => except_events new_session e
  end.

Definition guarded_result {A} (new_session : session_id) (r : result A) (st : state) : result A :=
  match r with
  | Return a =>
      match commit_raises st new_session with
      | Some e => Raise e
      | None => Return a
      end
  | Raise e => Raise e
  end.

End Interleaving.

(** Sessions on which [close()] ran between two states. *)
Definition closed_between (st st' : state) : list nat :=
  drop (length (closed st)) (closed st').


(** C5 in the spec's words: entered in a context that already holds a
    session, [session] logs a warning and yields the held session. *)
Definition reentry_as_specified (t : thread) (st : state) : Prop :=
  ∀ s, SESSION_HOLDER st !! t = Some s →
    (session_enter t st).1 = Return s ∧
    ∃ msg, EvLog WARNING msg ∈ issued st (session_enter t st).2.

(** ** Concrete environments and programs *)

(** The urls the concrete [create_engine] accepts: those of a dialect it
    knows.  Anything else, the empty string included, is refused. *)
Definition known_dialect (url : string) : bool :=
  String.prefix "sqlite://" url ||
  String.prefix "postgresql://" url ||
  String.prefix "mysql://" url.

Definition refuse_unknown_dialect (url : string) : option exn :=
  if known_dialect url then None
  else Some (ArgumentError "Could not parse rfc1738 URL or load its dialect").

(** A database that accepts every commit; two tables in the metadata, a
    metadata whose [create_all] and [drop_all] check first. *)
Definition reliable : Environment :=
  {| SQLALCHEMY_DATABASE_URI := "sqlite://";
     BASE_metadata := ["cluster"; "host"];
     create_engine_raises := refuse_unknown_dialect;
     create_all_checkfirst := true;
     commit_raises := λ _ _, None |}.

(** A database that rejects every commit, and a metadata whose [create_all]
    and [drop_all] issue their statements without checking. *)
Definition rejecting : Environment :=
  {| SQLALCHEMY_DATABASE_URI := "sqlite://";
     BASE_metadata := ["cluster"; "host"];
     create_engine_raises := refuse_unknown_dialect;
     create_all_checkfirst := false;
     commit_raises := λ _ _, Some (OperationalError "database is locked") |}.

(** [ValueError('bad input')], raised by a block. *)
Definition block_error : exn := UserException "ValueError" 1.

(** Thread 0 runs
    [with session(): (with session(): pass); raise ValueError('bad input')]. *)
Definition raise_after_nested_scope : M unit :=
  session (Env:=reliable) 0 (λ _,
    session (Env:=reliable) 0 (λ _, mret ());;
    raise block_error).

(** Thread 0 enters [with session() as outer:], runs [with session(): pass]
    inside it and then, still inside the outer block, calls
    [current_session()]. *)
Definition lookup_after_nested_scope : M (nat * nat) :=
  outer ← session_enter 0;
  session (Env:=reliable) 0 (λ _, mret ());;
  found ← current_session 0;
  mret (outer, found).

(** The state in which thread 0 is inside [with session():], from module
    load. *)
Definition in_scope : state := (session_enter 0 (initial_state (Env:=reliable))).2.

(** Thread 0 has run one scope to its end, from module load. *)
Definition after_one_scope : state :=
  run (Env:=reliable) [(0, SessionEnter); (0, SessionExit 0 (Return ()))]
      (initial_state (Env:=reliable)).

(** Threads 0 and 1 are both inside [with session():], from module load. *)
Definition both_in_scope : state :=
  run (Env:=reliable) [(0, SessionEnter); (1, SessionEnter)]
      (initial_state (Env:=reliable)).

(** The part of the state the module owns: engine handle, factory binding,
    registry and per-context slot. *)
Definition module_state (st : state) : engine * engine * gmap nat nat * gmap nat nat :=
  (ENGINE st, SESSION_bind st, SCOPED_SESSION st, SESSION_HOLDER st).

(** The module state together with the objects constructed so far. *)
Definition control_state (st : state) :=
  (module_state st, heap st, next_engine st).

(** Every session named by a slot or by the registry is a constructed
    session object. *)
Definition sessions_allocated (st : state) : Prop :=
  ∀ t s,
    SESSION_HOLDER st !! t = Some s ∨ SCOPED_SESSION st !! t = Some s →
    s < length (heap st).

(** The tables of [model.BASE.metadata], as entries of the database at
    [url]. *)
Definition metadata_keys `{Env : Environment} (url : string) : gset (string * string) :=
  list_to_set ((λ table, (url, table)) <$> BASE_metadata).

(** ** Basic facts *)

Section Facts.
Context `{Env : Environment}.

Lemma session_enter_eq t st :
  session_enter t st =
  match SESSION_HOLDER st !! t with
  | Some s =>
      (Return s,
       set_SESSION_HOLDER (<[t:=s]> (SESSION_HOLDER st))
         (emit (EvLog ERROR "we are already in session") st))
  | None =>
      match SCOPED_SESSION st !! t with
      | Some s => (Return s, set_SESSION_HOLDER (<[t:=s]> (SESSION_HOLDER st)) st)
      | None =>
          let s := length (heap st) in
          (Return s,
           set_SESSION_HOLDER (<[t:=s]> (SESSION_HOLDER st))
             (set_SCOPED_SESSION (<[t:=s]> (SCOPED_SESSION st))
                (emit (EvNewSession s (SESSION_bind st))
                   (set_heap (heap st ++ [Session (SESSION_bind st)]) st))))
      end
  end.
Proof.
  unfold session_enter, session_acquire, hasattr_session, getattr_session,
    scoped_session_call, sessionmaker_call, setattr_session, logging_error,
    update, get_state, mbind, M_bind, mret, M_ret.
  destruct (SESSION_HOLDER st !! t) as [s|] eqn:Hslot; cbn.
  - rewrite Hslot. reflexivity.
  - destruct (SCOPED_SESSION st !! t) as [s|] eqn:Hreg; reflexivity.
Qed.

Ltac state_simpl :=
  unfold emit, record_close, set_SCOPED_SESSION, set_SESSION_HOLDER, set_heap,
    set_tables;
  cbn [ENGINE SESSION_bind SCOPED_SESSION SESSION_HOLDER heap next_engine
       tables trace closed].

Lemma session_finally_eq t s st :
  session_finally t s st =
  (match SESSION_HOLDER st !! t with
   | Some _ => Return ()
   | None => Raise (AttributeError "session")
   end,
   State (ENGINE st) (SESSION_bind st)
     (delete t (SCOPED_SESSION st)) (delete t (SESSION_HOLDER st))
     (heap st) (next_engine st) (tables st)
     (trace st ++ [EvClose s; EvRemove t])
     (closed st ++ s :: option_list (SCOPED_SESSION st !! t))).
Proof.
  unfold session_finally, Session_close, scoped_session_remove, delattr_session,
    update, get_state, mbind, M_bind, mret, M_ret.
  state_simpl.
  destruct (SCOPED_SESSION st !! t) as [s'|] eqn:Hreg; state_simpl;
    destruct (SESSION_HOLDER st !! t) eqn:Hslot; state_simpl;
    rewrite <- !app_assoc; cbn [app option_list];
    rewrite ?(delete_id (SESSION_HOLDER st)) by done; rewrite ?app_nil_r;
    reflexivity.
Qed.

Lemma session_guarded_eq {A} s (r : result A) st :
  try_except
    (a ← (λ st, (r, st)) : M A; Session_commit s;; mret a)
    (session_except s) st =
  (guarded_result s r st,
   State (ENGINE st) (SESSION_bind st) (SCOPED_SESSION st) (SESSION_HOLDER st)
     (heap st) (next_engine st) (tables st)
     (trace st ++ guarded_events s r st) (closed st)).
Proof.
  unfold try_except, session_except, Session_commit, Session_rollback,
    logging_error, logging_exception, raise, update, get_state,
    guarded_result, guarded_events, except_events, mbind, M_bind, mret, M_ret.
  destruct r as [a|e]; state_simpl.
  - destruct (commit_raises st s) as [e|]; [destruct (isinstance_Exception e)|];
      state_simpl; rewrite <- ?app_assoc; reflexivity.
  - destruct (isinstance_Exception e); state_simpl.
    + rewrite <- ?app_assoc. reflexivity.
    + rewrite app_nil_r. by destruct st.
Qed.

Lemma session_exit_eq {A} t s (r : result A) st :
  session_exit t s r st =
  (match SESSION_HOLDER st !! t with
   | Some _ => guarded_result s r st
   | None => Raise (AttributeError "session")
   end,
   State (ENGINE st) (SESSION_bind st)
     (delete t (SCOPED_SESSION st)) (delete t (SESSION_HOLDER st))
     (heap st) (next_engine st) (tables st)
     (trace st ++ guarded_events s r st ++ [EvClose s; EvRemove t])
     (closed st ++ s :: option_list (SCOPED_SESSION st !! t))).
Proof.
  unfold session_exit, try_finally.
  rewrite session_guarded_eq, session_finally_eq. state_simpl.
  rewrite <- app_assoc.
  destruct (SESSION_HOLDER st !! t); reflexivity.
Qed.

(** [session] is its two halves around the block. *)
Lemma session_split {A} t (body : nat → M A) st :
  session t body st =
  match session_enter t st with
  | (Return s, st1) => session_exit t s (body s st1).1 (body s st1).2
  | (Raise e, st1) => (Raise e, st1)
  end.
Proof.
  unfold session, session_enter, session_exit, try_finally, try_except,
    setattr_session, update, mbind, M_bind, mret, M_ret.
  destruct (session_acquire t st) as [[s|e] st0]; [|reflexivity].
  destruct (body s _) as [[a|e] st2]; reflexivity.
Qed.

Lemma session_enter_returns t st : ∃ s, (session_enter t st).1 = Return s.
Proof.
  rewrite session_enter_eq.
  destruct (SESSION_HOLDER st !! t); [|destruct (SCOPED_SESSION st !! t)]; eauto.
Qed.

Lemma session_enter_binds t st s :
  (session_enter t st).1 = Return s →
  SESSION_HOLDER (session_enter t st).2 !! t = Some s.
Proof.
  rewrite session_enter_eq.
  destruct (SESSION_HOLDER st !! t); [|destruct (SCOPED_SESSION st !! t)];
    cbn; intros [= <-]; apply lookup_insert_eq.
Qed.

Lemma issued_app st st' evs : trace st' = trace st ++ evs → issued st st' = evs.
Proof. intros Htrace. unfold issued. rewrite Htrace. apply drop_app_length. Qed.

Lemma current_session_eq t st :
  current_session t st =
  match SESSION_HOLDER st !! t with
  | Some s => (Return s, st)
  | None =>
      (Raise (AttributeError "session"),
       emit (EvLogException (AttributeError "session"))
         (emit (EvLog ERROR "It is not in the session scope") st))
  end.
Proof.
  unfold current_session, try_except, getattr_session.
  destruct (SESSION_HOLDER st !! t); reflexivity.
Qed.

Lemma session_exit_trace {A} t s (r : result A) st :
  trace (session_exit t s r st).2 =
  trace st ++ guarded_events s r st ++ [EvClose s; EvRemove t].
Proof. rewrite session_exit_eq. reflexivity. Qed.

Lemma session_exit_unbound {A} t s (r : result A) st :
  SESSION_HOLDER st !! t = None →
  (session_exit t s r st).1 = Raise (AttributeError "session").
Proof. intros Hslot. rewrite session_exit_eq. cbn. rewrite Hslot. reflexivity. Qed.

Lemma session_exit_bound {A} t s (r : result A) st :
  is_Some (SESSION_HOLDER st !! t) →
  (session_exit t s r st).1 = guarded_result s r st.
Proof. intros [s' Hslot]. rewrite session_exit_eq. cbn. rewrite Hslot. reflexivity. Qed.

(** In a scope whose slot is still bound when the block ends, an
    [Exception] raised by the block is rolled back, logged and re-raised as
    it is. *)
Lemma session_reraises_block_error {A} t (body : nat → M A) st s st1 e st2 :
  session_enter t st = (Return s, st1) →
  body s st1 = (Raise e, st2) →
  isinstance_Exception e = true →
  is_Some (SESSION_HOLDER st2 !! t) →
  (session t body st).1 = Raise e ∧
  issued st2 (session t body st).2 =
    [EvRollback s; EvLog ERROR "failed to commit session"; EvLogException e;
     EvClose s; EvRemove t].
Proof.
  intros Henter Hbody Hexc Hslot.
  rewrite session_split, Henter, Hbody. cbn [fst snd]. split.
  - rewrite session_exit_bound by done. reflexivity.
  - apply issued_app. rewrite session_exit_trace. cbn.
    unfold except_events. rewrite Hexc. reflexivity.
Qed.

(** The same when the block completes and the commit is what fails. *)
Lemma session_reraises_commit_error {A} t (body : nat → M A) st s st1 a e st2 :
  session_enter t st = (Return s, st1) →
  body s st1 = (Return a, st2) →
  commit_raises st2 s = Some e →
  isinstance_Exception e = true →
  is_Some (SESSION_HOLDER st2 !! t) →
  (session t body st).1 = Raise e ∧
  issued st2 (session t body st).2 =
    [EvCommit s; EvRollback s; EvLog ERROR "failed to commit session";
     EvLogException e; EvClose s; EvRemove t].
Proof.
  intros Henter Hbody Hcommit Hexc Hslot.
  rewrite session_split, Henter, Hbody. cbn [fst snd]. split.
  - rewrite session_exit_bound by done. cbn. rewrite Hcommit. reflexivity.
  - apply issued_app. rewrite session_exit_trace. cbn.
    rewrite Hcommit. unfold except_events. rewrite Hexc. reflexivity.
Qed.

(** An exception that is not an [Exception] passes the [except] clause by:
    no rollback is issued, the [finally] clause still runs. *)
Lemma session_base_exception {A} t (body : nat → M A) st s st1 cls st2 :
  session_enter t st = (Return s, st1) →
  body s st1 = (Raise (BaseOnly cls), st2) →
  issued st2 (session t body st).2 = [EvClose s; EvRemove t].
Proof.
  intros Henter Hbody.
  rewrite session_split, Henter, Hbody. cbn [fst snd].
  apply issued_app. rewrite session_exit_trace. reflexivity.
Qed.

(** *** Schema helpers *)

Lemma ddl_create_frame url table checkfirst st :
  control_state (ddl_create url table checkfirst st).2 = control_state st.
Proof.
  unfold ddl_create, get_state, update, raise, mbind, M_bind, mret, M_ret.
  case_decide; destruct checkfirst; reflexivity.
Qed.

Lemma ddl_drop_frame url table checkfirst st :
  control_state (ddl_drop url table checkfirst st).2 = control_state st.
Proof.
  unfold ddl_drop, get_state, update, raise, mbind, M_bind, mret, M_ret.
  case_decide; destruct checkfirst; reflexivity.
Qed.

Lemma for_each_frame {A} (f : A → M unit) l :
  (∀ x st, control_state (f x st).2 = control_state st) →
  ∀ st, control_state (for_each f l st).2 = control_state st.
Proof.
  intros Hf. induction l as [|x l IH]; intros st; [reflexivity|].
  cbn [for_each]. unfold mbind, M_bind.
  specialize (Hf x st). destruct (f x st) as [[[]|e] st1]; cbn in *.
  - rewrite IH. exact Hf.
  - exact Hf.
Qed.

Lemma control_state_module st st' :
  control_state st' = control_state st → module_state st' = module_state st.
Proof. unfold control_state. congruence. Qed.

(** Issued blindly, a second [CREATE] of the same table is rejected: the
    [checkfirst=True] of [create_table] is what makes it repeatable. *)
Lemma Table_create_blind_duplicate table bind st :
  (eng_url bind, table) ∈ tables st →
  (Table_create table bind false st).1 = Raise (OperationalError "table already exists").
Proof.
  intros Hin.
  unfold Table_create, ddl_create, get_state, update, raise, mbind, M_bind.
  cbn. rewrite decide_True by exact Hin. reflexivity.
Qed.

Lemma create_table_eq table st :
  (create_table table st).1 = Return () ∧
  tables (create_table table st).2 = {[ (eng_url (ENGINE st), table) ]} ∪ tables st ∧
  trace (create_table table st).2 =
    trace st ++ [EvTableCreate table (ENGINE st) true] ∧
  ENGINE (create_table table st).2 = ENGINE st.
Proof.
  unfold create_table, Table_create, ddl_create, get_state, update, mbind, M_bind,
    mret, M_ret.
  state_simpl.
  destruct (decide ((eng_url (ENGINE st), table) ∈ tables st)) as [Hin|Hout];
    state_simpl; repeat split.
  symmetry. apply subseteq_union_1_L. by apply singleton_subseteq_l.
Qed.

Lemma drop_table_eq table st :
  (drop_table table st).1 = Return () ∧
  tables (drop_table table st).2 = tables st ∖ {[ (eng_url (ENGINE st), table) ]} ∧
  trace (drop_table table st).2 =
    trace st ++ [EvTableDrop table (ENGINE st) true] ∧
  ENGINE (drop_table table st).2 = ENGINE st.
Proof.
  unfold drop_table, Table_drop, ddl_drop, get_state, update, mbind, M_bind,
    mret, M_ret.
  state_simpl.
  destruct (decide ((eng_url (ENGINE st), table) ∈ tables st)) as [Hin|Hout];
    state_simpl; repeat split.
  symmetry. apply difference_disjoint_L. by apply disjoint_singleton_r.
Qed.

(** C7: [create_table] and [drop_table] pass [checkfirst=True] to the
    underlying operation, so neither raises: creating a table returns
    normally whether or not it exists, creating it a second time in a row
    returns normally and changes nothing, and dropping a table returns
    normally whether or not it exists, in particular when it is absent or
    was just dropped. *)
Theorem create_drop_table_idempotent table st :
  let created := (create_table table st).2 in
  let dropped := (drop_table table st).2 in
  (create_table table st).1 = Return () ∧
  issued st created = [EvTableCreate table (ENGINE st) true] ∧
  (eng_url (ENGINE st), table) ∈ tables created ∧
  (create_table table created).1 = Return () ∧
  tables (create_table table created).2 = tables created ∧
  (drop_table table st).1 = Return () ∧
  issued st dropped = [EvTableDrop table (ENGINE st) true] ∧
  ((eng_url (ENGINE st), table) ∉ tables dropped) ∧
  (drop_table table dropped).1 = Return () ∧
  tables (drop_table table dropped).2 = tables dropped.
Proof.
  intros created dropped.
  destruct (create_table_eq table st) as (Hc1 & Hc2 & Hc3 & Hc4).
  destruct (create_table_eq table created) as (Hcc1 & Hcc2 & _).
  destruct (drop_table_eq table st) as (Hd1 & Hd2 & Hd3 & Hd4).
  destruct (drop_table_eq table dropped) as (Hdd1 & Hdd2 & _).
  fold created in Hc2, Hc3, Hc4. fold dropped in Hd2, Hd3, Hd4.
  rewrite Hc4 in Hcc2. rewrite Hd4 in Hdd2.
  split; [exact Hc1|]. split; [by apply issued_app|].
  split; [rewrite Hc2; apply elem_of_union_l; by apply elem_of_singleton|].
  split; [exact Hcc1|].
  split; [rewrite Hcc2, Hc2; by rewrite (assoc_L (∪)), (idemp_L (∪))|].
  split; [exact Hd1|]. split; [by apply issued_app|].
  assert (Hgone : (eng_url (ENGINE st), table) ∉ tables dropped).
  { rewrite Hd2. intros [_ Hne]%elem_of_difference. apply Hne.
    by apply elem_of_singleton. }
  split; [exact Hgone|]. split; [exact Hdd1|].
  rewrite Hdd2. apply difference_disjoint_L. by apply disjoint_singleton_r.
Qed.

(** C10: [create_db], [drop_db], [create_table] and [drop_table] leave the
    engine handle, the factory binding, the registry and the per-context
    session slot as they were. *)
Theorem schema_helpers_preserve_module_state table st :
  module_state (create_db st).2 = module_state st ∧
  module_state (drop_db st).2 = module_state st ∧
  module_state (create_table table st).2 = module_state st ∧
  module_state (drop_table table st).2 = module_state st.
Proof.
  unfold create_db, drop_db, create_table, drop_table, MetaData_create_all,
    MetaData_drop_all, Table_create, Table_drop, get_state, update, mbind,
    M_bind at 1 3 5 7.
  cbn. repeat split; apply control_state_module.
  - rewrite for_each_frame; [reflexivity|]. intros; apply ddl_create_frame.
  - rewrite for_each_frame; [reflexivity|]. intros; apply ddl_drop_frame.
  - rewrite ddl_create_frame. reflexivity.
  - rewrite ddl_drop_frame. reflexivity.
Qed.

(** *** Session scopes *)

(** C2: whatever the block of a session scope does and however it ends
    (value, [Exception], other exception, failed commit), the last things
    the scope does are to close its session and to remove it from the
    registry, and once the scope is left the calling context has no session
    in the registry and none in its slot. *)
Theorem session_always_releases {A} t (body : nat → M A) st :
  let st' := (session t body st).2 in
  ∃ s pre,
    (session_enter t st).1 = Return s ∧
    trace st' = pre ++ [EvClose s; EvRemove t] ∧
    SCOPED_SESSION st' !! t = None ∧
    SESSION_HOLDER st' !! t = None.
Proof.
  cbn. rewrite session_split.
  destruct (session_enter_returns t st) as [s Hs].
  destruct (session_enter t st) as [r st1]. cbn in Hs. subst r.
  destruct (body s st1) as [r st2]. cbn [fst snd].
  exists s, (trace st2 ++ guarded_events s r st2). split; [reflexivity|].
  rewrite session_exit_eq. cbn. split; [|split].
  - rewrite <- app_assoc. reflexivity.
  - apply lookup_delete_eq.
  - apply lookup_delete_eq.
Qed.

Lemma closed_between_app st st' l :
  closed st' = closed st ++ l → closed_between st st' = l.
Proof. intros Hclosed. unfold closed_between. rewrite Hclosed. apply drop_app_length. Qed.


Lemma session_enter_bound t st s :
  SESSION_HOLDER st !! t = Some s →
  session_enter t st = (Return s, emit (EvLog ERROR "we are already in session") st).
Proof.
  intros Hslot. rewrite session_enter_eq, Hslot.
  unfold set_SESSION_HOLDER, emit. cbn.
  rewrite insert_id by exact Hslot. reflexivity.
Qed.

(** C5, as the code has it: entered in a context that already holds a
    session, [session] logs 'we are already in session' through
    [logging.error], that is at level ERROR, and yields the session the
    context holds; that log record is all it issues, the factory constructs
    no session, and engine, factory binding, registry and slot stay as they
    are. *)
Theorem session_reentry_reuses t st s :
  SESSION_HOLDER st !! t = Some s →
  let st' := (session_enter t st).2 in
  (session_enter t st).1 = Return s ∧
  issued st st' = [EvLog ERROR "we are already in session"] ∧
  heap st' = heap st ∧
  module_state st' = module_state st.
Proof.
  intros Hslot. cbn. rewrite (session_enter_bound t st s Hslot). cbn.
  repeat split. unfold issued. cbn. apply drop_app_length.
Qed.

(** C9: a scope is entered, and a nested one in the same context; the
    nested block runs and the nested scope is left (whatever its block did
    and produced).  Both scopes were given the same session and the slot of
    the context named it up to the nested exit; no session was constructed
    for the nested scope.  The nested exit closes that session and leaves
    the slot empty, so that [current_session], called in the outer block,
    raises the attribute error, and so does the exit of the outer scope,
    whatever the outer block produced; the outer scope whose block is the
    nested scope followed by [current_session] ends in that error. *)
Theorem nested_exit_unbinds_outer {A B} t st (inner : nat → M A) (r_out : result B) :
  ∃ s st1 st2,
    session_enter t st = (Return s, st1) ∧
    SESSION_HOLDER st1 !! t = Some s ∧
    session_enter t st1 = (Return s, st2) ∧
    SESSION_HOLDER st2 !! t = Some s ∧
    heap st2 = heap st1 ∧
    let r_in := (inner s st2).1 in
    let st2' := (inner s st2).2 in
    let st3 := (session_exit t s r_in st2').2 in
    let st4 := (current_session t st3).2 in
    session t inner st1 = session_exit t s r_in st2' ∧
    (∃ pre, issued st2' st3 = pre ++ [EvClose s; EvRemove t]) ∧
    s ∈ closed_between st2' st3 ∧
    SESSION_HOLDER st3 !! t = None ∧
    (current_session t st3).1 = Raise (AttributeError "session") ∧
    (session_exit t s r_out st3).1 = Raise (AttributeError "session") ∧
    (session_exit t s r_out st4).1 = Raise (AttributeError "session") ∧
    (session t (λ _, session t inner;; current_session t) st).1 =
      Raise (AttributeError "session").
Proof.
  destruct (session_enter_returns t st) as [s Hs].
  pose proof (session_enter_binds t st s Hs) as Hbound.
  destruct (session_enter t st) as [r st1] eqn:Henter. cbn in Hs, Hbound. subst r.
  pose proof (session_enter_bound t st1 s Hbound) as Hnested.
  exists s, st1, (emit (EvLog ERROR "we are already in session") st1).
  split; [reflexivity|]. split; [exact Hbound|]. split; [exact Hnested|].
  split; [exact Hbound|]. split; [reflexivity|].
  set (st2 := emit _ st1) in *. cbn zeta.
  set (st2' := (inner s st2).2). set (r_in := (inner s st2).1).
  assert (Hscope : session t inner st1 = session_exit t s r_in st2')
    by by rewrite session_split, Hnested.
  assert (Hgone : SESSION_HOLDER (session_exit t s r_in st2').2 !! t = None).
  { rewrite session_exit_eq. cbn. apply lookup_delete_eq. }
  split; [exact Hscope|]. split; [|split; [|split; [exact Hgone|split; [|split; [|split]]]]].
  - exists (guarded_events s r_in st2').
    apply issued_app. by rewrite session_exit_trace.
  - erewrite closed_between_app; [apply elem_of_cons; by left|].
    rewrite session_exit_eq. reflexivity.
  - rewrite current_session_eq, Hgone. reflexivity.
  - by apply session_exit_unbound.
  - apply session_exit_unbound.
    rewrite current_session_eq, Hgone. exact Hgone.
  - rewrite session_split, Henter. apply session_exit_unbound.
    unfold mbind, M_bind at 1. rewrite Hscope.
    destruct (session_exit t s r_in st2') as [[a|e] st3] eqn:Hexit;
      cbn in Hgone |- *; [|exact Hgone].
    rewrite current_session_eq, Hgone. exact Hgone.
Qed.

(** *** Interleavings *)

Lemma init_eq url st :
  init url st =
  match create_engine_raises url with
  | Some e => (Raise e, st)
  | None =>
      (Return (),
       State (Engine (next_engine st) url) (Engine (next_engine st) url)
         ∅ (SESSION_HOLDER st) (heap st) (S (next_engine st)) (tables st)
         (trace st) (closed st))
  end.
Proof.
  unfold init, create_engine, mbind, M_bind at 1.
  destruct (create_engine_raises url); reflexivity.
Qed.

Lemma exec_passive t o st :
  passive o = true → control_state (exec t o st) = control_state st.
Proof.
  destruct o; try discriminate; intros _; cbn [exec].
  - rewrite current_session_eq. destruct (SESSION_HOLDER st !! t); reflexivity.
  - unfold create_db, MetaData_create_all, get_state, update, mbind, M_bind at 1.
    cbn. rewrite for_each_frame; [reflexivity|]. intros; apply ddl_create_frame.
  - unfold drop_db, MetaData_drop_all, get_state, update, mbind, M_bind at 1.
    cbn. rewrite for_each_frame; [reflexivity|]. intros; apply ddl_drop_frame.
  - unfold create_table, Table_create, get_state, update, mbind, M_bind.
    cbn. rewrite ddl_create_frame. reflexivity.
  - unfold drop_table, Table_drop, get_state, update, mbind, M_bind.
    cbn. rewrite ddl_drop_frame. reflexivity.
Qed.

Ltac passive_frame :=
  match goal with
  | |- context [exec ?t ?o ?st] =>
      let H := fresh "Hframe" in
      pose proof (exec_passive t o st eq_refl) as H;
      unfold control_state, module_state in H;
      injection H as ? ? ? ? ? ?;
      cbn [exec] in *
  end.

(** Session objects are never modified or discarded. *)
Lemma exec_heap_grows t o st s obj :
  heap st !! s = Some obj → heap (exec t o st) !! s = Some obj.
Proof.
  intros Hs. destruct o; try (passive_frame; congruence); cbn [exec].
  - rewrite init_eq. by destruct (create_engine_raises database_url).
  - rewrite session_enter_eq.
    destruct (SESSION_HOLDER st !! t); [|destruct (SCOPED_SESSION st !! t)];
      cbn; try exact Hs.
    by apply lookup_app_l_Some.
  - rewrite session_exit_eq. exact Hs.
Qed.

Lemma exec_engine t o st :
  is_init o = false → ENGINE (exec t o st) = ENGINE st.
Proof.
  destruct o; try discriminate; intros _; try (passive_frame; congruence); cbn [exec].
  - rewrite session_enter_eq.
    destruct (SESSION_HOLDER st !! t); [|destruct (SCOPED_SESSION st !! t)]; reflexivity.
  - rewrite session_exit_eq. reflexivity.
Qed.

Lemma exec_registry_in_slot t o st :
  registry_in_slot st → registry_in_slot (exec t o st).
Proof.
  unfold registry_in_slot. intros Hinv t' s.
  destruct o; try (passive_frame; by (repeat match goal with H : _ = _ |- _ => rewrite H end; auto)); cbn [exec].
  - rewrite init_eq. destruct (create_engine_raises database_url); cbn.
    + apply Hinv.
    + by rewrite lookup_empty.
  - rewrite session_enter_eq.
    destruct (SESSION_HOLDER st !! t) as [s0|] eqn:Hslot;
      [|destruct (SCOPED_SESSION st !! t) as [s0|] eqn:Hreg]; cbn.
    + rewrite insert_id by exact Hslot. apply Hinv.
    + destruct (decide (t = t')) as [<-|Hne].
      * rewrite lookup_insert_eq. congruence.
      * rewrite lookup_insert_ne by done. apply Hinv.
    + destruct (decide (t = t')) as [<-|Hne].
      * by rewrite !lookup_insert_eq.
      * rewrite !lookup_insert_ne by done. apply Hinv.
  - rewrite session_exit_eq. cbn.
    destruct (decide (t = t')) as [<-|Hne].
    + by rewrite lookup_delete_eq.
    + rewrite !lookup_delete_ne by done. apply Hinv.
Qed.

Lemma exec_factory_current t o st :
  factory_current st → factory_current (exec t o st).
Proof.
  unfold factory_current. intros [Hbind Hreg].
  destruct o; try (passive_frame; split; [congruence|]; intros t' s';
                   repeat match goal with H : _ = _ |- _ => rewrite H end; apply Hreg);
    cbn [exec].
  - rewrite init_eq. destruct (create_engine_raises database_url); cbn.
    + by split.
    + split; [reflexivity|]. intros t' s'. by rewrite lookup_empty.
  - rewrite session_enter_eq.
    destruct (SESSION_HOLDER st !! t) as [s0|] eqn:Hslot;
      [|destruct (SCOPED_SESSION st !! t) as [s0|] eqn:Hr]; cbn;
      (split; [exact Hbind|]); try exact Hreg.
    intros t' s'. destruct (decide (t = t')) as [<-|Hne].
    + rewrite lookup_insert_eq. intros [= <-].
      rewrite lookup_app_r by done. rewrite Nat.sub_diag, Hbind. reflexivity.
    + rewrite lookup_insert_ne by done. intros Hs'.
      apply lookup_app_l_Some. by eapply Hreg.
  - rewrite session_exit_eq. cbn. split; [exact Hbind|].
    intros t' s'. destruct (decide (t = t')) as [<-|Hne].
    + by rewrite lookup_delete_eq.
    + rewrite lookup_delete_ne by done. apply Hreg.
Qed.

Lemma exec_engine_fresh t o st : engine_fresh st → engine_fresh (exec t o st).
Proof.
  unfold engine_fresh. intros Hlt.
  destruct o; try (passive_frame; congruence); cbn [exec].
  - rewrite init_eq. destruct (create_engine_raises database_url); cbn; lia.
  - rewrite session_enter_eq.
    destruct (SESSION_HOLDER st !! t); [|destruct (SCOPED_SESSION st !! t)]; exact Hlt.
  - rewrite session_exit_eq. exact Hlt.
Qed.

Lemma reachable_invariants st :
  reachable st → registry_in_slot st ∧ factory_current st ∧ engine_fresh st.
Proof.
  induction 1 as [|st t o _ (Hslot & Hfactory & Hfresh)].
  - assert (Hnone : ∀ t s, SCOPED_SESSION initial_state !! t ≠ Some s).
    { intros t s. cbn. unfold scoped_session_new. by rewrite lookup_empty. }
    split; [|split].
    + intros t s Hreg. by apply Hnone in Hreg.
    + split; [reflexivity|]. intros t s Hreg. by apply Hnone in Hreg.
    + unfold engine_fresh. cbn. lia.
  - auto using exec_registry_in_slot, exec_factory_current, exec_engine_fresh.
Qed.

Lemma run_snoc l p st : run (l ++ [p]) st = exec p.1 p.2 (run l st).
Proof. unfold run. by rewrite foldl_snoc. Qed.

Lemma run_factory_current l st : factory_current st → factory_current (run l st).
Proof.
  induction l as [|p l IH] using rev_ind; [done|].
  intros Hinv. rewrite run_snoc. by apply exec_factory_current, IH.
Qed.

Lemma run_heap_grows l st s obj :
  heap st !! s = Some obj → heap (run l st) !! s = Some obj.
Proof.
  induction l as [|p l IH] using rev_ind; [done|].
  intros Hs. rewrite run_snoc. by apply exec_heap_grows, IH.
Qed.

Lemma run_engine l st :
  Forall (λ p, is_init p.2 = false) l → ENGINE (run l st) = ENGINE st.
Proof.
  induction l as [|p l IH] using rev_ind; [done|].
  intros [Hl Hp]%Forall_app. rewrite run_snoc.
  apply Forall_inv in Hp. rewrite exec_engine by exact Hp. by apply IH.
Qed.

Lemma run_reachable l st : reachable st → reachable (run l st).
Proof.
  induction l as [|p l IH] using rev_ind; [done|].
  intros Hst. rewrite run_snoc. by apply reachable_step, IH.
Qed.

Lemma exec_slot_other t t' o st :
  t' ≠ t → SESSION_HOLDER (exec t' o st) !! t = SESSION_HOLDER st !! t.
Proof.
  intros Hne. destruct o; try (passive_frame; congruence); cbn [exec].
  - rewrite init_eq. by destruct (create_engine_raises database_url).
  - rewrite session_enter_eq.
    destruct (SESSION_HOLDER st !! t'); [|destruct (SCOPED_SESSION st !! t')];
      cbn; by rewrite lookup_insert_ne.
  - rewrite session_exit_eq. cbn. by rewrite lookup_delete_ne.
Qed.

Lemma exec_slot_kept t t' o st s :
  SESSION_HOLDER st !! t = Some s →
  SESSION_HOLDER (exec t' o st) !! t = Some s ∨
  SESSION_HOLDER (exec t' o st) !! t = None.
Proof.
  intros Hslot. destruct (decide (t' = t)) as [->|Hne];
    [|left; by rewrite exec_slot_other].
  destruct o; try (passive_frame; left; congruence); cbn [exec].
  - left. rewrite init_eq. by destruct (create_engine_raises database_url).
  - left. by rewrite (session_enter_bound t st s).
  - right. rewrite session_exit_eq. cbn. apply lookup_delete_eq.
Qed.

(** C8: in every reachable state a context is bound to at most one
    session, counting both its slot and its entry in the registry; a call
    of the module by any thread leaves a bound slot bound to the same
    session or empties it, calls by other threads do not touch it, and
    entering [session] in a context that holds a session yields that
    session and constructs none. *)
Theorem one_session_per_context st t :
  reachable st →
  (∀ s1 s2, s1 ∈ bound_sessions st t → s2 ∈ bound_sessions st t → s1 = s2) ∧
  (∀ t' o s, SESSION_HOLDER st !! t = Some s →
     SESSION_HOLDER (exec t' o st) !! t = Some s ∨
     SESSION_HOLDER (exec t' o st) !! t = None) ∧
  (∀ t' o, t' ≠ t → SESSION_HOLDER (exec t' o st) !! t = SESSION_HOLDER st !! t) ∧
  (∀ s, SESSION_HOLDER st !! t = Some s →
     (session_enter t st).1 = Return s ∧
     heap (session_enter t st).2 = heap st).
Proof.
  intros (Hinv & _ & _)%reachable_invariants. repeat split.
  - unfold bound_sessions. intros s1 s2 H1 H2.
    destruct (SCOPED_SESSION st !! t) as [r|] eqn:Hreg.
    + rewrite (Hinv t r Hreg) in H1, H2. cbn in H1, H2.
      assert (∀ x, x ∈ [r; r] → x = r) as Hr.
      { intros x Hx. repeat (apply elem_of_cons in Hx as [->|Hx]; [done|]).
        by apply elem_of_nil in Hx. }
      by rewrite (Hr s1), (Hr s2).
    + destruct (SESSION_HOLDER st !! t) as [h|]; cbn in H1, H2.
      * apply list_elem_of_singleton in H1, H2. congruence.
      * by apply elem_of_nil in H1.
  - intros t' o s. apply exec_slot_kept.
  - intros t' o. apply exec_slot_other.
  - by rewrite (session_enter_bound t st s).
  - by rewrite (session_enter_bound t st s).
Qed.

(** C6: [init(database_url)], for a url that [create_engine] accepts,
    returns after building a new engine for the url, different from the
    one it replaces, and binding the factory to it.  The session objects
    that exist and the slots of the contexts are not touched, and an
    existing session keeps its binding through every later call.  After
    any sequence of later calls without another [init], a context that
    holds no session gets from [session] a session bound to the new
    engine. *)
Theorem init_rebinds_later_sessions url st l t :
  reachable st →
  create_engine_raises url = None →
  Forall (λ p, is_init p.2 = false) l →
  SESSION_HOLDER (run l (init url st).2) !! t = None →
  let st' := (init url st).2 in
  let st'' := run l st' in
  (init url st).1 = Return () ∧
  ENGINE st' = Engine (next_engine st) url ∧
  ENGINE st' ≠ ENGINE st ∧
  SESSION_bind st' = ENGINE st' ∧
  heap st' = heap st ∧
  SESSION_HOLDER st' = SESSION_HOLDER st ∧
  (∀ s obj, heap st !! s = Some obj → heap st'' !! s = Some obj) ∧
  ∃ s, (session_enter t st'').1 = Return s ∧
       heap (session_enter t st'').2 !! s = Some (Session (ENGINE st')).
Proof.
  intros (_ & _ & Hfresh)%reachable_invariants Haccept Hl Hslot st' st''.
  assert (Hinit : init url st =
                  (Return (),
                   State (Engine (next_engine st) url) (Engine (next_engine st) url)
                     ∅ (SESSION_HOLDER st) (heap st) (S (next_engine st))
                     (tables st) (trace st) (closed st)))
    by by rewrite init_eq, Haccept.
  assert (Hcurrent : factory_current st').
  { unfold st'. rewrite Hinit. split; [reflexivity|].
    intros t0 s0. cbn. by rewrite lookup_empty. }
  apply (run_factory_current l) in Hcurrent as [Hbind Hreg].
  fold st'' in Hbind, Hreg.
  assert (Hengine : ENGINE st'' = ENGINE st') by by apply run_engine.
  rewrite Hengine in Hbind, Hreg.
  split; [by rewrite Hinit|].
  split; [unfold st'; by rewrite Hinit|].
  split.
  { unfold engine_fresh in Hfresh. intros Heq.
    rewrite <- Heq in Hfresh. unfold st' in Hfresh. rewrite Hinit in Hfresh.
    cbn in Hfresh. lia. }
  split; [unfold st'; by rewrite Hinit|].
  split; [unfold st'; by rewrite Hinit|].
  split; [unfold st'; by rewrite Hinit|].
  split.
  { intros s obj Hs. apply run_heap_grows. unfold st'. by rewrite Hinit. }
  rewrite session_enter_eq.
  change (SESSION_HOLDER st'' !! t = None) in Hslot. rewrite Hslot.
  destruct (SCOPED_SESSION st'' !! t) as [s|] eqn:Hr.
  - exists s. split; [reflexivity|]. cbn. by eapply Hreg.
  - exists (length (heap st'')). split; [reflexivity|]. cbn.
    rewrite lookup_app_r by done. by rewrite Nat.sub_diag, Hbind.
Qed.

(** *** What a finished nested scope does to the scope around it *)

Lemma session_unbinds {A} t (body : nat → M A) st :
  SESSION_HOLDER (session t body st).2 !! t = None.
Proof.
  rewrite session_split.
  destruct (session_enter_returns t st) as [s Hs].
  destruct (session_enter t st) as [r st1]. cbn in Hs. subst r.
  rewrite session_exit_eq. cbn. apply lookup_delete_eq.
Qed.

(** In any state and with any database, a scope whose block runs a nested
    scope and then raises hands the caller the attribute error of its own
    cleanup, whatever the block raised. *)
Lemma nested_scope_masks_any_error {A B} t (inner : nat → M A) e st :
  (session t (λ _, session t inner;; (raise e : M B)) st).1 =
    Raise (AttributeError "session").
Proof.
  rewrite session_split.
  destruct (session_enter_returns t st) as [s Hs].
  destruct (session_enter t st) as [r st1]. cbn in Hs. subst r.
  apply session_exit_unbound.
  pose proof (session_unbinds t inner st1) as Hgone.
  unfold mbind, M_bind at 1, raise.
  destruct (session t inner st1) as [[a|e'] st2]; exact Hgone.
Qed.

(** And [current_session], called in the outer block after the nested
    scope, raises. *)
Lemma current_session_after_nested_scope {A} t (inner : nat → M A) st :
  (current_session t (session t inner st).2).1 = Raise (AttributeError "session").
Proof. by rewrite current_session_eq, session_unbinds. Qed.

(** Right after [session] is entered, [current_session] returns the session
    that was yielded; in a context whose slot is empty it logs 'It is not
    in the session scope' and raises the attribute error. *)
Lemma current_session_after_enter t st s :
  (session_enter t st).1 = Return s →
  current_session t (session_enter t st).2 = (Return s, (session_enter t st).2).
Proof.
  intros Hs. rewrite current_session_eq.
  by rewrite (session_enter_binds t st s Hs).
Qed.

Lemma current_session_outside t st :
  SESSION_HOLDER st !! t = None →
  (current_session t st).1 = Raise (AttributeError "session") ∧
  issued st (current_session t st).2 =
    [EvLog ERROR "It is not in the session scope";
     EvLogException (AttributeError "session")].
Proof.
  intros Hslot. rewrite current_session_eq, Hslot. split; [reflexivity|].
  apply issued_app. cbn. by rewrite <- app_assoc.
Qed.

(** *** Further invariants of interleaved use *)

Lemma exec_sessions_allocated t o st :
  sessions_allocated st → sessions_allocated (exec t o st).
Proof.
  unfold sessions_allocated. intros Hinv t' s'.
  destruct o;
    try (passive_frame;
         repeat match goal with H : _ = _ |- _ => rewrite H end;
         exact (Hinv t' s'));
    cbn [exec].
  - rewrite init_eq. destruct (create_engine_raises database_url); cbn.
    + exact (Hinv t' s').
    + rewrite lookup_empty.
      intros [Hslot|Hreg]; [|done]. apply (Hinv t'). by left.
  - rewrite session_enter_eq.
    destruct (SESSION_HOLDER st !! t) as [s0|] eqn:Hslot;
      [|destruct (SCOPED_SESSION st !! t) as [s0|] eqn:Hreg]; cbn.
    + rewrite insert_id by exact Hslot. exact (Hinv t' s').
    + destruct (decide (t = t')) as [<-|Hne].
      * rewrite lookup_insert_eq. intros [[= <-]|Hr]; apply (Hinv t); by right.
      * rewrite lookup_insert_ne by done. exact (Hinv t' s').
    + rewrite length_app. cbn. destruct (decide (t = t')) as [<-|Hne].
      * rewrite !lookup_insert_eq. intros [[= <-]|[= <-]]; lia.
      * rewrite !lookup_insert_ne by done. intros Hs'.
        apply Hinv in Hs'. lia.
  - rewrite session_exit_eq. cbn.
    intros [[_ Hs']%lookup_delete_Some|[_ Hs']%lookup_delete_Some];
      apply (Hinv t'); [by left|by right].
Qed.

Lemma reachable_sessions_allocated st : reachable st → sessions_allocated st.
Proof.
  induction 1 as [|st t o _ IH]; [|by apply exec_sessions_allocated].
  intros t s. cbn. unfold scoped_session_new. rewrite !lookup_empty.
  by intros [|].
Qed.

(** In a reachable state a context whose slot is empty has no session in
    the registry either, so [session] constructs one. *)
Lemma session_enter_free t st :
  reachable st →
  SESSION_HOLDER st !! t = None →
  session_enter t st =
  (Return (length (heap st)),
   set_SESSION_HOLDER (<[t:=length (heap st)]> (SESSION_HOLDER st))
     (set_SCOPED_SESSION (<[t:=length (heap st)]> (SCOPED_SESSION st))
        (emit (EvNewSession (length (heap st)) (ENGINE st))
           (set_heap (heap st ++ [Session (ENGINE st)]) st)))) ∧
  SCOPED_SESSION st !! t = None.
Proof.
  intros (Hslot & [Hbind _] & _)%reachable_invariants Hfree.
  assert (Hreg : SCOPED_SESSION st !! t = None).
  { destruct (SCOPED_SESSION st !! t) as [s|] eqn:Hreg; [|done].
    apply Hslot in Hreg. congruence. }
  split; [|exact Hreg].
  rewrite session_enter_eq, Hfree, Hreg, Hbind. reflexivity.
Qed.

(** X1: in a reachable state, a context whose slot is empty is given by
    [session] a session object that did not exist before: the factory
    constructs exactly one, bound to the current engine, the context's slot
    and its registry entry both name it, and the construction is all that
    is issued. *)
Theorem free_context_gets_fresh_session t st :
  reachable st →
  SESSION_HOLDER st !! t = None →
  let s := length (heap st) in
  let st' := (session_enter t st).2 in
  (session_enter t st).1 = Return s ∧
  heap st !! s = None ∧
  heap st' = heap st ++ [Session (ENGINE st)] ∧
  SESSION_HOLDER st' !! t = Some s ∧
  SCOPED_SESSION st' !! t = Some s ∧
  issued st st' = [EvNewSession s (ENGINE st)].
Proof.
  intros Hreach Hfree s st'.
  destruct (session_enter_free t st Hreach Hfree) as [Heq _].
  unfold st'. rewrite Heq. cbn. repeat split.
  - by apply lookup_ge_None_2.
  - apply lookup_insert_eq.
  - apply lookup_insert_eq.
  - unfold issued. cbn. apply drop_app_length.
Qed.

(** X2: two threads that hold no session and enter [session] one after
    the other are given different session objects, and afterwards
    [current_session] returns to each thread its own. *)
Theorem threads_get_distinct_sessions t t' st :
  reachable st →
  t ≠ t' →
  SESSION_HOLDER st !! t = None →
  SESSION_HOLDER st !! t' = None →
  let st1 := exec t SessionEnter st in
  let st2 := exec t' SessionEnter st1 in
  ∃ s s',
    (session_enter t st).1 = Return s ∧
    (session_enter t' st1).1 = Return s' ∧
    s ≠ s' ∧
    (current_session t st2).1 = Return s ∧
    (current_session t' st2).1 = Return s'.
Proof.
  intros Hreach Hne Hfree Hfree' st1 st2.
  assert (Hreach1 : reachable st1) by by apply reachable_step.
  assert (Hfree1 : SESSION_HOLDER st1 !! t' = None).
  { unfold st1. by rewrite exec_slot_other. }
  destruct (session_enter_free t st Hreach Hfree) as [Heq _].
  destruct (session_enter_free t' st1 Hreach1 Hfree1) as [Heq1 _].
  exists (length (heap st)), (length (heap st1)).
  assert (Hheap : length (heap st1) = S (length (heap st))).
  { unfold st1. cbn [exec]. rewrite Heq. cbn. rewrite length_app. cbn. lia. }
  split; [by rewrite Heq|]. split; [by rewrite Heq1|]. split; [lia|].
  assert (Hs' : SESSION_HOLDER st2 !! t' = Some (length (heap st1))).
  { unfold st2. cbn [exec]. rewrite Heq1. cbn. apply lookup_insert_eq. }
  assert (Hs : SESSION_HOLDER st2 !! t = Some (length (heap st))).
  { unfold st2. rewrite exec_slot_other by done.
    unfold st1. cbn [exec]. rewrite Heq. cbn. apply lookup_insert_eq. }
  rewrite !current_session_eq, Hs, Hs'. done.
Qed.

(** X3: the slot is per thread: no call of the module made by one thread,
    [init] and the exit of a scope included, changes what
    [current_session] gives another thread. *)
Theorem other_threads_keep_current_session t t' o st :
  t ≠ t' →
  (current_session t' (exec t o st)).1 = (current_session t' st).1.
Proof.
  intros Hne. rewrite !current_session_eq, exec_slot_other by done.
  destruct (SESSION_HOLDER st !! t'); reflexivity.
Qed.

(** X4: in every reachable state the factory is bound to the engine that
    [ENGINE] names, every session the registry holds is bound to that
    engine, every session named by a slot is a constructed session object,
    and the engine's identity is older than the next one to be handed
    out. *)
Theorem reachable_state_wellformed st :
  reachable st →
  SESSION_bind st = ENGINE st ∧
  (∀ t s, SCOPED_SESSION st !! t = Some s →
     heap st !! s = Some (Session (ENGINE st))) ∧
  (∀ t s, SESSION_HOLDER st !! t = Some s → is_Some (heap st !! s)) ∧
  eng_id (ENGINE st) < next_engine st.
Proof.
  intros Hreach.
  destruct (reachable_invariants st Hreach) as (_ & [Hbind Hreg] & Hfresh).
  pose proof (reachable_sessions_allocated st Hreach) as Halloc.
  repeat split; try done.
  intros t s Hslot. apply lookup_lt_is_Some. apply (Halloc t). by left.
Qed.

(** X5: a scope entered in a context that holds no session, around a block
    that leaves engine, factory binding, registry and slots alone, puts all
    four back as it found them when it is left, whatever the outcome of the
    block and of the commit. *)
Theorem scope_restores_module_state {A} t (body : nat → M A) st s st1 :
  reachable st →
  SESSION_HOLDER st !! t = None →
  session_enter t st = (Return s, st1) →
  module_state (body s st1).2 = module_state st1 →
  module_state (session t body st).2 = module_state st.
Proof.
  intros Hreach Hfree Henter Hbody.
  destruct (session_enter_free t st Hreach Hfree) as [Heq Hreg].
  rewrite session_split, Henter. rewrite Heq in Henter.
  injection Henter as <- <-.
  rewrite session_exit_eq. unfold module_state in *. cbn in *.
  injection Hbody as -> -> -> ->.
  by rewrite !delete_insert_id.
Qed.

(** X6: inside an outer scope, once a nested scope has been left, a further
    scope entered in the same context is not given the outer scope's
    session but a newly constructed one. *)
Theorem scope_after_nested_scope_gets_new_session t st s (r : result ()) :
  reachable st →
  (session_enter t st).1 = Return s →
  let st3 := exec t (SessionExit s r) (exec t SessionEnter (exec t SessionEnter st)) in
  ∃ s',
    (session_enter t st3).1 = Return s' ∧
    s' ≠ s ∧
    heap st3 !! s' = None ∧
    heap (session_enter t st3).2 !! s' = Some (Session (ENGINE st)).
Proof.
  intros Hreach Hs st3.
  set (st1 := exec t SessionEnter st) in *.
  set (st2 := exec t SessionEnter st1) in *.
  assert (Hreach1 : reachable st1) by by apply reachable_step.
  assert (Hreach3 : reachable st3) by by do 2 apply reachable_step.
  assert (Hbound : SESSION_HOLDER st1 !! t = Some s)
    by by apply session_enter_binds.
  assert (Halloc : s < length (heap st1)).
  { apply (reachable_sessions_allocated st1 Hreach1 t). by left. }
  assert (Hheap : heap st3 = heap st1).
  { unfold st3. cbn [exec]. rewrite session_exit_eq. cbn.
    change (heap (session_enter t st1).2 = heap st1).
    by rewrite (session_enter_bound t st1 s). }
  assert (Hfree : SESSION_HOLDER st3 !! t = None).
  { unfold st3. cbn [exec]. rewrite session_exit_eq. cbn. apply lookup_delete_eq. }
  assert (Hengine : ENGINE st3 = ENGINE st).
  { unfold st3, st2, st1. by rewrite !exec_engine. }
  destruct (session_enter_free t st3 Hreach3 Hfree) as [Heq _].
  exists (length (heap st3)).
  split; [by rewrite Heq|]. split; [rewrite Hheap; lia|].
  split; [by apply lookup_ge_None_2|].
  rewrite Heq. cbn [snd]. state_simpl.
  rewrite lookup_app_r by done. by rewrite Nat.sub_diag, Hengine.
Qed.

(** *** Exceptions in an ordinary scope *)

(** X7: when the block of a scope raises an [Exception] and the context's
    slot is still bound, the scope attempts no commit; it rolls its session
    back, logs the failure and the exception, closes the session, removes
    it from the registry, and the caller receives the exception the block
    raised. *)
Theorem scope_block_error_is_rolled_back {A} t (body : nat → M A) st s st1 e st2 :
  session_enter t st = (Return s, st1) →
  body s st1 = (Raise e, st2) →
  isinstance_Exception e = true →
  is_Some (SESSION_HOLDER st2 !! t) →
  let evs := issued st2 (session t body st).2 in
  (session t body st).1 = Raise e ∧
  evs = [EvRollback s; EvLog ERROR "failed to commit session"; EvLogException e;
         EvClose s; EvRemove t] ∧
  (∀ s', EvCommit s' ∉ evs) ∧
  heap (session t body st).2 = heap st2.
Proof.
  intros Henter Hbody Hexc Hslot evs.
  destruct (session_reraises_block_error t body st s st1 e st2) as [Hres Hevs];
    try done.
  fold evs in Hevs. split; [exact Hres|]. split; [exact Hevs|]. split.
  - intros s' Hin. rewrite Hevs in Hin.
    repeat (apply elem_of_cons in Hin as [Heq|Hin]; [discriminate|]).
    by apply elem_of_nil in Hin.
  - rewrite session_split, Henter, Hbody. cbn [fst snd].
    rewrite session_exit_eq. reflexivity.
Qed.

(** X8: when the block completes and the commit itself raises an
    [Exception], the rollback follows the failed commit, the failure and
    the exception are logged, the session is closed and removed, and the
    caller receives the exception the commit raised instead of the value of
    the block. *)
Theorem scope_failed_commit_is_rolled_back {A} t (body : nat → M A) st s st1 a e st2 :
  session_enter t st = (Return s, st1) →
  body s st1 = (Return a, st2) →
  commit_raises st2 s = Some e →
  isinstance_Exception e = true →
  is_Some (SESSION_HOLDER st2 !! t) →
  (session t body st).1 = Raise e ∧
  (session t body st).1 ≠ Return a ∧
  issued st2 (session t body st).2 =
    [EvCommit s; EvRollback s; EvLog ERROR "failed to commit session";
     EvLogException e; EvClose s; EvRemove t].
Proof.
  intros Henter Hbody Hcommit Hexc Hslot.
  destruct (session_reraises_commit_error t body st s st1 a e st2) as [Hres Hevs];
    try done.
  split; [exact Hres|]. split; [by rewrite Hres|exact Hevs].
Qed.

(** X9: an exception that is not an [Exception] (a keyboard interrupt,
    say) is not caught by the [except] clause: it reaches the caller with
    no rollback and nothing logged; the [finally] clause still closes the
    session and removes it from the registry. *)
Theorem scope_passes_base_exception {A} t (body : nat → M A) st s st1 cls st2 :
  session_enter t st = (Return s, st1) →
  body s st1 = (Raise (BaseOnly cls), st2) →
  is_Some (SESSION_HOLDER st2 !! t) →
  (session t body st).1 = Raise (BaseOnly cls) ∧
  issued st2 (session t body st).2 = [EvClose s; EvRemove t].
Proof.
  intros Henter Hbody Hslot. split.
  - rewrite session_split, Henter, Hbody. cbn [fst snd].
    by rewrite session_exit_bound.
  - by eapply session_base_exception.
Qed.

(** X10: leaving a scope issues a rollback exactly when an [Exception]
    reached the [except] clause, from the block or from the commit, and
    the rollback is then of the scope's own session. *)
Theorem rollback_only_after_exception {A} t s (r : result A) st s' :
  EvRollback s' ∈ issued st (session_exit t s r st).2 ↔
  s' = s ∧
  ∃ e, isinstance_Exception e = true ∧
       (r = Raise e ∨ ((∃ a, r = Return a) ∧ commit_raises st s = Some e)).
Proof.
  erewrite issued_app by apply session_exit_trace.
  unfold guarded_events, except_events. split.
  - intros Hin. destruct r as [a|e].
    + destruct (commit_raises st s) as [e|] eqn:Hcommit;
        [destruct (isinstance_Exception e) eqn:Hexc|]; cbn in Hin.
      * apply elem_of_cons in Hin as [Heq|Hin]; [discriminate|].
        apply elem_of_cons in Hin as [[= ->]|Hin].
        { split; [done|]. exists e. split; [done|]. right. eauto. }
        repeat (apply elem_of_cons in Hin as [Heq|Hin]; [discriminate|]).
        by apply elem_of_nil in Hin.
      * repeat (apply elem_of_cons in Hin as [Heq|Hin]; [discriminate|]).
        by apply elem_of_nil in Hin.
      * repeat (apply elem_of_cons in Hin as [Heq|Hin]; [discriminate|]).
        by apply elem_of_nil in Hin.
    + destruct (isinstance_Exception e) eqn:Hexc; cbn in Hin.
      * apply elem_of_cons in Hin as [[= ->]|Hin].
        { split; [done|]. exists e. split; [done|]. by left. }
        repeat (apply elem_of_cons in Hin as [Heq|Hin]; [discriminate|]).
        by apply elem_of_nil in Hin.
      * repeat (apply elem_of_cons in Hin as [Heq|Hin]; [discriminate|]).
        by apply elem_of_nil in Hin.
  - intros (-> & e & Hexc & [->|[[a ->] Hcommit]]).
    + rewrite Hexc. cbn. apply elem_of_cons. by left.
    + rewrite Hcommit, Hexc. cbn. apply elem_of_cons. right.
      apply elem_of_cons. by left.
Qed.

(** X11: a scope entered in a context that already holds a session works
    on that session, so when its block completes it commits and closes the
    session of the enclosing scope and empties the slot the enclosing scope
    was entered with. *)
Theorem nested_scope_commits_enclosing_session {A} t (body : nat → M A) st s a st2 :
  SESSION_HOLDER st !! t = Some s →
  body s (emit (EvLog ERROR "we are already in session") st) = (Return a, st2) →
  is_Some (SESSION_HOLDER st2 !! t) →
  commit_raises st2 s = None →
  (session t body st).1 = Return a ∧
  issued st2 (session t body st).2 = [EvCommit s; EvClose s; EvRemove t] ∧
  SESSION_HOLDER (session t body st).2 !! t = None.
Proof.
  intros Hheld Hbody Hslot Hcommit.
  rewrite session_split, (session_enter_bound t st s Hheld), Hbody. cbn [fst snd].
  split; [|split].
  - rewrite session_exit_bound by done. cbn. by rewrite Hcommit.
  - apply issued_app. rewrite session_exit_trace. cbn. by rewrite Hcommit.
  - rewrite session_exit_eq. cbn. apply lookup_delete_eq.
Qed.

(** *** The schema helpers on the database *)

#[local] Set Warnings "-clear-no-such-hyp".

Lemma set_tables_id st : set_tables (tables st) st = st.
Proof. by destruct st. Qed.

Lemma ddl_create_checkfirst url table st :
  ddl_create url table true st =
  (Return (), set_tables ({[ (url, table) ]} ∪ tables st) st).
Proof.
  unfold ddl_create, get_state, update, mbind, M_bind, mret, M_ret.
  destruct (decide ((url, table) ∈ tables st)) as [Hin|Hout]; [|reflexivity].
  replace ({[ (url, table) ]} ∪ tables st) with (tables st).
  - by rewrite set_tables_id.
  - symmetry. apply subseteq_union_1_L. by apply singleton_subseteq_l.
Qed.

Lemma ddl_drop_checkfirst url table st :
  ddl_drop url table true st =
  (Return (), set_tables (tables st ∖ {[ (url, table) ]}) st).
Proof.
  unfold ddl_drop, get_state, update, mbind, M_bind, mret, M_ret.
  destruct (decide ((url, table) ∈ tables st)) as [Hin|Hout]; [reflexivity|].
  replace (tables st ∖ {[ (url, table) ]}) with (tables st).
  - by rewrite set_tables_id.
  - symmetry. apply difference_disjoint_L. by apply disjoint_singleton_r.
Qed.

Lemma ddl_create_absent url table checkfirst st :
  (url, table) ∉ tables st →
  ddl_create url table checkfirst st =
  (Return (), set_tables ({[ (url, table) ]} ∪ tables st) st).
Proof.
  intros Habsent.
  unfold ddl_create, get_state, update, mbind, M_bind.
  by rewrite decide_False.
Qed.

Lemma ddl_drop_present url table checkfirst st :
  (url, table) ∈ tables st →
  ddl_drop url table checkfirst st =
  (Return (), set_tables (tables st ∖ {[ (url, table) ]}) st).
Proof.
  intros Hpresent.
  unfold ddl_drop, get_state, update, mbind, M_bind.
  by rewrite decide_True.
Qed.

(** Whichever way the metadata checks, creating tables none of which
    exists creates them all ... *)
Lemma for_each_ddl_create_absent checkfirst url l st :
  NoDup l →
  (∀ table, table ∈ l → (url, table) ∉ tables st) →
  for_each (λ table, ddl_create url table checkfirst) l st =
  (Return (),
   set_tables (list_to_set ((λ table, (url, table)) <$> l) ∪ tables st) st).
Proof.
  intros Hnodup. revert st.
  induction Hnodup as [|x l Hx Hnodup IH]; intros st Habsent; cbn [for_each].
  - cbn. rewrite (left_id_L ∅ (∪)). by rewrite set_tables_id.
  - unfold mbind, M_bind.
    rewrite ddl_create_absent by (apply Habsent; by left).
    rewrite IH.
    + unfold set_tables. cbn. do 2 f_equal. set_solver.
    + intros table Hin. cbn. intros [Heq|Hold]%elem_of_union.
      * apply elem_of_singleton in Heq. congruence.
      * apply (Habsent table); [by right|exact Hold].
Qed.

(** ... and dropping tables all of which exist drops them all. *)
Lemma for_each_ddl_drop_present checkfirst url l st :
  NoDup l →
  (∀ table, table ∈ l → (url, table) ∈ tables st) →
  for_each (λ table, ddl_drop url table checkfirst) l st =
  (Return (),
   set_tables (tables st ∖ list_to_set ((λ table, (url, table)) <$> l)) st).
Proof.
  intros Hnodup. revert st.
  induction Hnodup as [|x l Hx Hnodup IH]; intros st Hpresent; cbn [for_each].
  - cbn. rewrite difference_empty_L. by rewrite set_tables_id.
  - unfold mbind, M_bind.
    rewrite ddl_drop_present by (apply Hpresent; by left).
    rewrite IH.
    + unfold set_tables. cbn. do 2 f_equal. set_solver.
    + intros table Hin. cbn. apply elem_of_difference. split.
      * apply Hpresent. by right.
      * intros Heq%elem_of_singleton. congruence.
Qed.

Lemma metadata_keys_reverse url :
  list_to_set ((λ table, (url, table)) <$> reverse BASE_metadata) =
  metadata_keys url.
Proof.
  unfold metadata_keys. apply set_eq. intros k.
  rewrite !elem_of_list_to_set, fmap_reverse. apply elem_of_reverse.
Qed.

Lemma elem_of_metadata_keys url table :
  table ∈ BASE_metadata → (url, table) ∈ metadata_keys url.
Proof.
  intros Hin. unfold metadata_keys. apply elem_of_list_to_set.
  by apply (list_elem_of_fmap_2 (λ table, (url, table))).
Qed.

Lemma create_db_absent st :
  NoDup BASE_metadata →
  metadata_keys (eng_url (ENGINE st)) ## tables st →
  create_db st =
  (Return (),
   set_tables (metadata_keys (eng_url (ENGINE st)) ∪ tables st)
     (emit (EvCreateAll (ENGINE st)) st)).
Proof.
  intros Hnodup Hdisjoint.
  unfold create_db, MetaData_create_all, get_state, update, mbind, M_bind at 1 2.
  rewrite for_each_ddl_create_absent; [reflexivity|exact Hnodup|].
  intros table Hin Hold. apply (Hdisjoint (eng_url (ENGINE st), table)).
  - by apply elem_of_metadata_keys.
  - exact Hold.
Qed.

Lemma drop_db_present st :
  NoDup BASE_metadata →
  metadata_keys (eng_url (ENGINE st)) ⊆ tables st →
  drop_db st =
  (Return (),
   set_tables (tables st ∖ metadata_keys (eng_url (ENGINE st)))
     (emit (EvDropAll (ENGINE st)) st)).
Proof.
  intros Hnodup Hsubset.
  unfold drop_db, MetaData_drop_all, get_state, update, mbind, M_bind at 1 2.
  rewrite for_each_ddl_drop_present.
  - by rewrite metadata_keys_reverse.
  - by rewrite reverse_Permutation.
  - intros table Hin. rewrite elem_of_reverse in Hin. cbn. apply Hsubset.
    by apply elem_of_metadata_keys.
Qed.

(** X12: on a database that holds none of the metadata's tables (each
    listed once), [create_db] issues [create_all] on the current engine
    and returns normally; afterwards the tables of the metadata exist in
    the current engine's database besides those that existed, and nothing
    else was created.  This does not depend on whether [create_all] checks
    first. *)
Theorem create_db_creates_metadata st :
  NoDup BASE_metadata →
  metadata_keys (eng_url (ENGINE st)) ## tables st →
  let url := eng_url (ENGINE st) in
  let st' := (create_db st).2 in
  (create_db st).1 = Return () ∧
  tables st' = metadata_keys url ∪ tables st ∧
  issued st st' = [EvCreateAll (ENGINE st)].
Proof.
  intros Hnodup Hdisjoint url st'. unfold st'.
  rewrite (create_db_absent st Hnodup Hdisjoint). cbn.
  repeat split. unfold issued. cbn. apply drop_app_length.
Qed.

(** X13: round trip: on a database that holds none of the metadata's
    tables (each listed once), [create_db] followed by [drop_db] returns
    normally twice, issues [create_all] then [drop_all] on the current
    engine, and leaves the set of tables as it was.  This does not depend
    on whether [create_all] and [drop_all] check first. *)
Theorem drop_db_undoes_create_db st :
  NoDup BASE_metadata →
  metadata_keys (eng_url (ENGINE st)) ## tables st →
  let st' := (drop_db (create_db st).2).2 in
  (create_db st).1 = Return () ∧
  (drop_db (create_db st).2).1 = Return () ∧
  tables st' = tables st ∧
  issued st st' = [EvCreateAll (ENGINE st); EvDropAll (ENGINE st)].
Proof.
  intros Hnodup Hdisjoint st'. unfold st'.
  rewrite (create_db_absent st Hnodup Hdisjoint). cbn [fst snd].
  rewrite drop_db_present; [|exact Hnodup|cbn; set_solver].
  cbn. repeat split.
  - set_solver.
  - unfold issued. cbn. rewrite <- app_assoc. apply drop_app_length.
Qed.

(** X14: the schema helpers follow a re-initialisation: when
    [create_engine] accepts [database_url], [create_table] called after
    [init(database_url)] is issued on the engine [init] built, creates the
    table in the database at [database_url], and leaves the tables of
    every database as they were otherwise. *)
Theorem create_table_follows_init database_url table st :
  create_engine_raises database_url = None →
  let st' := ((init database_url;; create_table table) st).2 in
  ((init database_url;; create_table table) st).1 = Return () ∧
  tables st' = {[ (database_url, table) ]} ∪ tables st ∧
  issued st st' =
    [EvTableCreate table (Engine (next_engine st) database_url) true].
Proof.
  intros Haccept st'.
  set (st1 := State (Engine (next_engine st) database_url)
                    (Engine (next_engine st) database_url)
                    ∅ (SESSION_HOLDER st) (heap st) (S (next_engine st))
                    (tables st) (trace st) (closed st)).
  assert (Hseq : (init database_url;; create_table table) st =
                 create_table table st1).
  { unfold mbind, M_bind at 1. by rewrite init_eq, Haccept. }
  unfold st'. rewrite Hseq.
  destruct (create_table_eq table st1) as (Hres & Htables & Htrace & _).
  split; [exact Hres|]. split; [exact Htables|].
  by apply issued_app.
Qed.

(** X16: a url that [create_engine] refuses makes [init] raise that error
    before anything is assigned: the state is exactly as before, and a
    context that holds no session is afterwards still given a session
    bound to the engine that was current before the call. *)
Theorem init_refused_url_changes_nothing database_url e t st :
  reachable st →
  create_engine_raises database_url = Some e →
  SESSION_HOLDER st !! t = None →
  let st' := (init database_url st).2 in
  (init database_url st).1 = Raise e ∧
  st' = st ∧
  ∃ s, (session_enter t st').1 = Return s ∧
       heap (session_enter t st').2 !! s = Some (Session (ENGINE st)).
Proof.
  intros Hreach Hrefuse Hfree st'. unfold st'.
  rewrite init_eq, Hrefuse. cbn [fst snd].
  split; [reflexivity|]. split; [reflexivity|].
  destruct (session_enter_free t st Hreach Hfree) as [Heq _].
  exists (length (heap st)). rewrite Heq. cbn [fst snd]. state_simpl.
  split; [reflexivity|].
  rewrite lookup_app_r by done. by rewrite Nat.sub_diag.
Qed.

(** X15: creating a table that did not exist and dropping it again leaves
    the set of tables as it was, and neither call raises. *)
Theorem create_then_drop_table_restores table st :
  (eng_url (ENGINE st), table) ∉ tables st →
  (create_table table st).1 = Return () ∧
  (drop_table table (create_table table st).2).1 = Return () ∧
  tables (drop_table table (create_table table st).2).2 = tables st.
Proof.
  intros Habsent.
  destruct (create_table_eq table st) as (Hc1 & Hc2 & _ & Hc4).
  destruct (drop_table_eq table (create_table table st).2) as (Hd1 & Hd2 & _).
  split; [exact Hc1|]. split; [exact Hd1|].
  rewrite Hd2, Hc2, Hc4. set_solver.
Qed.

End Facts.

(** ** The module on concrete runs *)

Section Runs.
#[local] Existing Instance reliable.

Example scope_commits :
  (session 0 (λ s, mret s) initial_state).1 = Return 0 ∧
  trace (session 0 (λ s, mret s) initial_state).2 =
    [EvNewSession 0 (Engine 0 "sqlite://"); EvCommit 0; EvClose 0; EvRemove 0].
Proof. split; reflexivity. Qed.

Example scope_rolls_back :
  (session 0 (λ _, raise block_error : M unit) initial_state).1 = Raise block_error ∧
  trace (session 0 (λ _, raise block_error : M unit) initial_state).2 =
    [EvNewSession 0 (Engine 0 "sqlite://"); EvRollback 0;
     EvLog ERROR "failed to commit session"; EvLogException block_error;
     EvClose 0; EvRemove 0].
Proof. split; reflexivity. Qed.

Example rejected_commit_rolls_back :
  (session (Env:=rejecting) 0 (λ s, mret s) (initial_state (Env:=rejecting))).1 =
    Raise (OperationalError "database is locked") ∧
  trace (session (Env:=rejecting) 0 (λ s, mret s) (initial_state (Env:=rejecting))).2 =
    [EvNewSession 0 (Engine 0 "sqlite://"); EvCommit 0; EvRollback 0;
     EvLog ERROR "failed to commit session";
     EvLogException (OperationalError "database is locked");
     EvClose 0; EvRemove 0].
Proof. split; reflexivity. Qed.

Example scope_lookup :
  (session 0 (λ _, current_session 0) initial_state).1 = Return 0.
Proof. reflexivity. Qed.

Example lookup_outside_scope :
  (current_session 0 initial_state).1 = Raise (AttributeError "session") ∧
  trace (current_session 0 initial_state).2 =
    [EvLog ERROR "It is not in the session scope";
     EvLogException (AttributeError "session")].
Proof. split; reflexivity. Qed.

Example create_twice_then_drop_missing :
  ((create_table "host";; create_table "host";; drop_table "switch") initial_state).1 =
    Return () ∧
  tables ((create_table "host";; create_table "host";; drop_table "switch")
            initial_state).2 = {[ ("sqlite://", "host") ]}.
Proof. split; vm_compute; reflexivity. Qed.

Example init_refuses_empty_url :
  (init "" initial_state).1 =
    Raise (ArgumentError "Could not parse rfc1738 URL or load its dialect") ∧
  ENGINE (init "" initial_state).2 = ENGINE initial_state.
Proof. split; reflexivity. Qed.

Example scope_closes_twice :
  closed (session 0 (λ s, mret s) initial_state).2 = [0; 0].
Proof. reflexivity. Qed.

Example create_db_twice_without_check :
  ((create_db (Env:=rejecting);; create_db (Env:=rejecting))
     (initial_state (Env:=rejecting))).1 =
    Raise (OperationalError "table already exists").
Proof. vm_compute. reflexivity. Qed.

(** C1, where the code departs from it: thread 0 runs a scope whose block
    first runs a nested scope to its end and then raises
    [ValueError('bad input')].  The outer scope rolls back and logs, but
    what reaches the caller is the attribute error raised by
    [del SESSION_HOLDER.session] in the [finally] clause, not the error the
    block raised. *)
Theorem nested_scope_masks_block_error :
  (raise_after_nested_scope initial_state).1 = Raise (AttributeError "session") ∧
  (raise_after_nested_scope initial_state).1 ≠ Raise block_error ∧
  trace (raise_after_nested_scope initial_state).2 =
    [EvNewSession 0 (Engine 0 "sqlite://");
     EvLog ERROR "we are already in session";
     EvCommit 0; EvClose 0; EvRemove 0;
     EvRollback 0; EvLog ERROR "failed to commit session";
     EvLogException block_error; EvClose 0; EvRemove 0].
Proof. repeat split. discriminate. Qed.

(** C3, where the code departs from it: thread 0 is inside an outer scope
    that was given session 0; after a nested scope has run to its end, and
    with the outer scope still open, [current_session] raises the attribute
    error instead of returning session 0. *)
Theorem current_session_fails_in_outer_scope :
  (session_enter 0 initial_state).1 = Return 0 ∧
  (lookup_after_nested_scope initial_state).1 = Raise (AttributeError "session") ∧
  trace (lookup_after_nested_scope initial_state).2 =
    [EvNewSession 0 (Engine 0 "sqlite://");
     EvLog ERROR "we are already in session";
     EvCommit 0; EvClose 0; EvRemove 0;
     EvLog ERROR "It is not in the session scope";
     EvLogException (AttributeError "session")].
Proof. repeat split. Qed.

(** C5 as stated fails: thread 0, already inside a scope, enters [session]
    again; the record that is logged has level ERROR, none has level
    WARNING. *)
Lemma reentry_warning_refuted : ¬ reentry_as_specified 0 in_scope.
Proof.
  intros Hspec. destruct (Hspec 0 eq_refl) as [_ [msg Hin]].
  vm_compute in Hin. apply list_elem_of_singleton in Hin. discriminate.
Qed.

Lemma session_reentry_reuses_witness :
  SESSION_HOLDER in_scope !! 0 = Some 0 ∧
  (session_enter 0 in_scope).1 = Return 0 ∧
  issued in_scope (session_enter 0 in_scope).2 = [EvLog ERROR "we are already in session"].
Proof.
  split; [reflexivity|].
  pose proof (session_reentry_reuses 0 in_scope 0 eq_refl) as (Hres & Hlog & _).
  split; [exact Hres | exact Hlog].
Defined.



Lemma one_session_per_context_witness :
  reachable in_scope ∧
  SESSION_HOLDER in_scope !! 0 = Some 0 ∧
  (SESSION_HOLDER (exec 0 (SessionExit 0 (Return ())) in_scope) !! 0 = Some 0 ∨
   SESSION_HOLDER (exec 0 (SessionExit 0 (Return ())) in_scope) !! 0 = None).
Proof.
  split; [exact (reachable_step initial_state 0 SessionEnter reachable_initial)|].
  split; [reflexivity|].
  exact (proj1 (proj2 (one_session_per_context in_scope 0
           (reachable_step initial_state 0 SessionEnter reachable_initial)))
         0 (SessionExit 0 (Return ())) 0 eq_refl).
Defined.

(** Thread 1 opens and leaves a scope after the re-initialisation; thread 0
    then opens one. *)
Lemma init_rebinds_later_sessions_witness :
  let st'' := run [(1, SessionEnter); (1, SessionExit 0 (Return ()))]
                  (init "postgresql://db/compass" initial_state).2 in
  create_engine_raises "postgresql://db/compass" = None ∧
  SESSION_HOLDER st'' !! 0 = None ∧
  ∃ s, (session_enter 0 st'').1 = Return s ∧
       heap (session_enter 0 st'').2 !! s =
         Some (Session (Engine 1 "postgresql://db/compass")).
Proof.
  split; [reflexivity|]. split; [reflexivity|].
  refine (proj2 (proj2 (proj2 (proj2 (proj2 (proj2 (proj2
    (init_rebinds_later_sessions "postgresql://db/compass" initial_state
       [(1, SessionEnter); (1, SessionExit 0 (Return ()))] 0 _ _ _ _)))))))).
  - exact reachable_initial.
  - reflexivity.
  - repeat constructor.
  - reflexivity.
Defined.

End Runs.

(** ** Further concrete runs *)

Section MoreRuns.
#[local] Existing Instance reliable.

Lemma free_context_gets_fresh_session_witness :
  reachable after_one_scope ∧
  SESSION_HOLDER after_one_scope !! 0 = None ∧
  (session_enter 0 after_one_scope).1 = Return 1 ∧
  heap after_one_scope !! 1 = None.
Proof.
  assert (Hreach : reachable after_one_scope)
    by (apply run_reachable; exact reachable_initial).
  split; [exact Hreach|]. split; [reflexivity|].
  pose proof (free_context_gets_fresh_session 0 after_one_scope Hreach eq_refl)
    as (Hres & Hnew & _).
  split; [exact Hres|exact Hnew].
Defined.

Lemma threads_get_distinct_sessions_witness :
  ∃ s s',
    (session_enter 0 initial_state).1 = Return s ∧
    (session_enter 1 (exec 0 SessionEnter initial_state)).1 = Return s' ∧
    s ≠ s' ∧
    (current_session 0 both_in_scope).1 = Return s ∧
    (current_session 1 both_in_scope).1 = Return s'.
Proof.
  refine (threads_get_distinct_sessions 0 1 initial_state
            reachable_initial _ eq_refl eq_refl).
  discriminate.
Defined.

Lemma other_threads_keep_current_session_witness :
  (current_session 1 (exec 0 (SessionExit 0 (Return ())) both_in_scope)).1 =
  (current_session 1 both_in_scope).1.
Proof.
  apply (other_threads_keep_current_session 0 1). discriminate.
Defined.

Lemma reachable_state_wellformed_witness :
  reachable both_in_scope ∧
  SESSION_bind both_in_scope = ENGINE both_in_scope ∧
  eng_id (ENGINE both_in_scope) < next_engine both_in_scope.
Proof.
  assert (Hreach : reachable both_in_scope)
    by (apply run_reachable; exact reachable_initial).
  split; [exact Hreach|].
  pose proof (reachable_state_wellformed both_in_scope Hreach)
    as (Hbind & _ & _ & Hfresh).
  split; [exact Hbind|exact Hfresh].
Defined.

Lemma scope_restores_module_state_witness :
  module_state (session 0 (λ s, mret s) initial_state).2 =
  module_state initial_state.
Proof.
  apply (scope_restores_module_state 0 (λ s, mret s) initial_state 0 in_scope);
    [exact reachable_initial | reflexivity | reflexivity | reflexivity].
Defined.

Lemma scope_after_nested_scope_gets_new_session_witness :
  ∃ s',
    (session_enter 0
       (exec 0 (SessionExit 0 (Return ()))
          (exec 0 SessionEnter (exec 0 SessionEnter initial_state)))).1 = Return s' ∧
    s' ≠ 0.
Proof.
  destruct (scope_after_nested_scope_gets_new_session 0 initial_state 0 (Return ())
              reachable_initial eq_refl) as (s' & Hres & Hne & _).
  exists s'. split; [exact Hres|exact Hne].
Defined.

Lemma scope_block_error_is_rolled_back_witness :
  (session 0 (λ _, raise block_error : M unit) initial_state).1 = Raise block_error.
Proof.
  refine (proj1 (scope_block_error_is_rolled_back 0 (λ _, raise block_error)
                   initial_state 0 in_scope block_error in_scope
                   eq_refl eq_refl eq_refl _)).
  exists 0. reflexivity.
Defined.

Lemma scope_failed_commit_is_rolled_back_witness :
  (session (Env:=rejecting) 0 (λ s, mret s) (initial_state (Env:=rejecting))).1 =
  Raise (OperationalError "database is locked").
Proof.
  refine (proj1 (scope_failed_commit_is_rolled_back (Env:=rejecting) 0 (λ s, mret s)
                   (initial_state (Env:=rejecting)) 0 in_scope 0
                   (OperationalError "database is locked") in_scope
                   eq_refl eq_refl eq_refl eq_refl _)).
  exists 0. reflexivity.
Defined.

Lemma scope_passes_base_exception_witness :
  (session 0 (λ _, raise (BaseOnly "KeyboardInterrupt") : M unit) initial_state).1 =
  Raise (BaseOnly "KeyboardInterrupt").
Proof.
  refine (proj1 (scope_passes_base_exception 0
                   (λ _, raise (BaseOnly "KeyboardInterrupt"))
                   initial_state 0 in_scope "KeyboardInterrupt" in_scope
                   eq_refl eq_refl _)).
  exists 0. reflexivity.
Defined.

Lemma nested_scope_commits_enclosing_session_witness :
  issued (emit (EvLog ERROR "we are already in session") in_scope)
         (session 0 (λ s, mret s) in_scope).2 =
  [EvCommit 0; EvClose 0; EvRemove 0].
Proof.
  refine (proj1 (proj2 (nested_scope_commits_enclosing_session 0 (λ s, mret s)
                          in_scope 0 0 _ eq_refl eq_refl _ eq_refl))).
  exists 0. reflexivity.
Defined.

Lemma create_then_drop_table_restores_witness :
  tables (drop_table "host" (create_table "host" initial_state).2).2 =
  tables initial_state.
Proof.
  refine (proj2 (proj2 (create_then_drop_table_restores "host" initial_state _))).
  exact (not_elem_of_empty _).
Defined.

Lemma metadata_listed_once : NoDup ["cluster"; "host"].
Proof.
  apply NoDup_cons. split; [|apply NoDup_singleton].
  intros Hin. apply list_elem_of_singleton in Hin. discriminate.
Defined.

(** The metadata of [rejecting] issues its statements without checking. *)
Lemma create_db_creates_metadata_witness :
  metadata_keys (Env:=rejecting) "sqlite://" ## tables (initial_state (Env:=rejecting)) ∧
  (create_db (Env:=rejecting) (initial_state (Env:=rejecting))).1 = Return () ∧
  tables (create_db (Env:=rejecting) (initial_state (Env:=rejecting))).2 =
    metadata_keys (Env:=rejecting) "sqlite://" ∪ ∅.
Proof.
  split; [exact (disjoint_empty_r _)|].
  pose proof (create_db_creates_metadata (Env:=rejecting)
                (initial_state (Env:=rejecting))
                metadata_listed_once (disjoint_empty_r _))
    as (Hres & Htables & _).
  split; [exact Hres|exact Htables].
Defined.

Lemma drop_db_undoes_create_db_witness :
  (drop_db (create_db initial_state).2).1 = Return () ∧
  tables (drop_db (create_db initial_state).2).2 = ∅.
Proof.
  pose proof (drop_db_undoes_create_db initial_state
                metadata_listed_once (disjoint_empty_r _))
    as (_ & Hres & Htables & _).
  split; [exact Hres|exact Htables].
Defined.

Lemma create_table_follows_init_witness :
  create_engine_raises "postgresql://db/compass" = None ∧
  tables ((init "postgresql://db/compass";; create_table "host") initial_state).2 =
    {[ ("postgresql://db/compass", "host") ]} ∪ ∅.
Proof.
  split; [reflexivity|].
  exact (proj1 (proj2 (create_table_follows_init "postgresql://db/compass" "host"
                         initial_state eq_refl))).
Defined.

(** [mem://test] names no dialect the engine knows. *)
Lemma init_refused_url_changes_nothing_witness :
  create_engine_raises "mem://test" =
    Some (ArgumentError "Could not parse rfc1738 URL or load its dialect") ∧
  (init "mem://test" initial_state).1 =
    Raise (ArgumentError "Could not parse rfc1738 URL or load its dialect") ∧
  (init "mem://test" initial_state).2 = initial_state.
Proof.
  split; [reflexivity|].
  pose proof (init_refused_url_changes_nothing "mem://test"
                (ArgumentError "Could not parse rfc1738 URL or load its dialect")
                0 initial_state reachable_initial eq_refl eq_refl)
    as (Hres & Hsame & _).
  split; [exact Hres|exact Hsame].
Defined.

End MoreRuns.
